(** * dsnt-pose2d: the PCKh evaluator and the folder telemetry output

    A shallow embedding of [src/dsnt/eval.py] (class [PCKhEvaluator]) and of
    [src/tele/output/folder.py] (classes [FolderCell], [JSONCell],
    [GrowingJSONCell], [FolderOutput]), with the properties the
    specification states about them.

    Python objects that are mutated in place (the evaluator's dict of
    meters, the file system) are threaded through a state-and-exception
    monad: a raised exception aborts the rest of the computation but keeps
    every mutation made before it, as in Python. *)

From Stdlib Require Import ZArith QArith Floats Ascii String.
From stdpp Require Import gmap strings list fin_maps pretty.

#[local] Set Warnings "-register-all,-clear-no-such-hyp".
#[local] Open Scope Z_scope.

(** ** Exceptions and the state-and-exception monad

    [Unmodelled] is no Python exception: it marks a run that leaves the
    modelled fragment of a library function. *)

Inductive exn :=
| IndexError
| KeyError
| ZeroDivisionError
| TypeError
| ValueError
| AttributeError
| FileExistsError
| FileNotFoundError
| IsADirectoryError
| Unmodelled.

Definition Exec (S A : Type) : Type := S → S * (exn + A).

Definition exec_ret {S A} (a : A) : Exec S A := λ s, (s, inr a).

Definition exec_bind {S A B} (f : A → Exec S B) (m : Exec S A) : Exec S B :=
  λ s, match m s with
       | (s', inr a) => f a s'
       | (s', inl e) => (s', inl e)
       end.

Definition raise {S A} (e : exn) : Exec S A := λ s, (s, inl e).

(** A pure step that may raise. *)
Definition lift {S A} (r : exn + A) : Exec S A := λ s, (s, r).
Definition get {S} : Exec S S := λ s, (s, inr s).
Definition put {S} (s : S) : Exec S unit := λ _, (s, inr tt).

#[global] Instance Exec_ret {S} : MRet (Exec S) := @exec_ret S.
#[global] Instance Exec_bind {S} : MBind (Exec S) := @exec_bind S.

(** [for x in xs: body(x)] *)
Fixpoint for_each {S A} (xs : list A) (body : A → Exec S unit) : Exec S unit :=
  match xs with
  | [] => mret tt
  | x :: xs' => body x ;; for_each xs' body
  end.

(** [range(n)] *)
Definition range (n : nat) : list nat := seq 0 n.

(** The state a computation leaves behind and whether it returned. *)
Definition state_after {S A} (m : Exec S A) (s : S) : S := (m s).1.
Definition returns {S A} (m : Exec S A) (s : S) : Prop := ∃ a, (m s).2 = inr a.

(** ** torchnet's [AverageValueMeter]

    The meter class comes from the torchnet package: a running count [n],
    a running sum [sum] and a running sum of squares [var].  The evaluator
    only ever adds the integers 0 and 1, so the sums are integers. *)
Module AverageValueMeter.

Record t := mk { n : nat; sum : Z; var : Z }.

Definition reset (_ : t) : t := mk 0 0 0.

(** [__init__] calls [reset]. *)
Definition init : t := mk 0 0 0.

Definition add (value : Z) (m : t) : t :=
  mk (n m + 1) (sum m + value) (var m + value * value).

(** The mean that [value()] reports; [None] stands for NaN (no sample). *)
Definition mean_of (s : Z) (k : nat) : option Q :=
  match k with
  | O => None
  | _ => Some (s # Pos.of_nat k)
  end.

Definition mean (m : t) : option Q := mean_of (sum m) (n m).

End AverageValueMeter.

(** ** Tensors, as the evaluator indexes them *)

(** A two-dimensional view [t[b, j]] with [t.size(0)] and [t.size(1)]. *)
Record tensor2 (A : Type) := Tensor2 {
  size0 : nat;
  size1 : nat;
  at2 : nat → nat → A
}.
Arguments Tensor2 {A}.
Arguments size0 {A}.
Arguments size1 {A}.
Arguments at2 {A}.

(** A one-dimensional tensor [t[b]]. *)
Record tensor1 (A : Type) := Tensor1 {
  len1 : nat;
  at1 : nat → A
}.
Arguments Tensor1 {A}.
Arguments len1 {A}.
Arguments at1 {A}.

(** Indexing raises [IndexError] out of range. *)
Definition index2 {S A} (t : tensor2 A) (b j : nat) : Exec S A :=
  if (b <? size0 t)%nat && (j <? size1 t)%nat then mret (at2 t b j)
  else raise IndexError.

Definition index1 {S A} (t : tensor1 A) (b : nat) : Exec S A :=
  if (b <? len1 t)%nat then mret (at1 t b) else raise IndexError.

(** Python's [x / y] on floats raises on a zero divisor. *)
Definition truediv {S} (x y : float) : Exec S float :=
  if PrimFloat.eqb y 0%float then raise ZeroDivisionError
  else mret (PrimFloat.div x y).

(** ** [PCKhEvaluator] *)
Module PCKhEvaluator.

Definition JOINT_NAMES : list string := [
  "rankle"; "rknee"; "rhip"; "lhip"; "lknee"; "lankle"; "pelvis"; "thorax";
  "upperneck"; "headtop"; "rwrist"; "relbow"; "rshoulder"; "lshoulder";
  "lelbow"; "lwrist"
]%string.

(** [self.meters]: a dict from meter name to meter object. *)
Abbreviation meters := (gmap string AverageValueMeter.t).

(** [__init__] *)
Definition init : meters :=
  foldl (λ ms joint_name, <[joint_name := AverageValueMeter.init]> ms)
        {[ "all"%string := AverageValueMeter.init ]} JOINT_NAMES.

(** [JOINT_NAMES[j]] *)
Definition joint_name (j : nat) : Exec meters string :=
  match JOINT_NAMES !! j with
  | Some name => mret name
  | None => raise IndexError
  end.

(** [self.meters[name].add(value)] *)
Definition meter_add (name : string) (value : Z) : Exec meters unit :=
  ms ← get;
  match ms !! name with
  | Some m => put (<[name := AverageValueMeter.add value m]> ms)
  | None => raise KeyError
  end.

(** The two meter updates that end the body of the loop. *)
Definition record_sample (j : nat) (v : Z) : Exec meters unit :=
  meter_add "all" v;; name ← joint_name j; meter_add name v.

(** [dist <= 0.5 and 1 or 0]: the comparison yields a bool; [True and 1]
    is [1], which is truthy, so the [or] keeps it; [False and 1] is
    [False], so the [or] yields [0]. *)
Definition thresholded (dist : float) : Z :=
  if PrimFloat.leb dist 0.5%float then 1 else 0.

Section Add.

(** The slices [target[b, j]] and [pred[b, j]] and torch's [torch.dist]
    on them. *)
Context {point : Type}.
Variable torch_dist : point → point → float.

Record batch := Batch {
  pred : tensor2 point;
  target : tensor2 point;
  joint_mask : tensor2 Z;
  head_lengths : tensor1 float
}.

(** The body of the inner loop. *)
Definition add_entry (x : batch) (b j : nat) : Exec meters unit :=
  m ← index2 (joint_mask x) b j;
  if m =? 1 then
    t ← index2 (target x) b j;
    p ← index2 (pred x) b j;
    h ← index1 (head_lengths x) b;
    dist ← truediv (torch_dist t p) h;
    meter_add "all" (thresholded dist);;
    name ← joint_name j;
    meter_add name (thresholded dist)
  else mret tt.

Definition add (x : batch) : Exec meters unit :=
  let batch_size := size0 (pred x) in
  let n_joints := size1 (pred x) in
  for_each (range batch_size) (λ b,
    for_each (range n_joints) (λ j, add_entry x b j)).

(** Entry [(b, j)] of the mask: within its bounds, and set or not. *)
Definition masked (x : batch) (b j : nat) : Prop :=
  (b < size0 (joint_mask x))%nat ∧ (j < size1 (joint_mask x))%nat ∧
  at2 (joint_mask x) b j = 1.

Definition unmasked (x : batch) (b j : nat) : Prop :=
  (b < size0 (joint_mask x))%nat ∧ (j < size1 (joint_mask x))%nat ∧
  at2 (joint_mask x) b j ≠ 1.

(** The operands of entry [(b, j)] are there: both slices, and a head
    length that is not zero. *)
Definition operands_ok (x : batch) (b j : nat) : Prop :=
  (b < size0 (target x))%nat ∧ (j < size1 (target x))%nat ∧
  (b < size0 (pred x))%nat ∧ (j < size1 (pred x))%nat ∧
  (b < len1 (head_lengths x))%nat ∧
  PrimFloat.eqb (at1 (head_lengths x) b) 0%float = false.

(** The normalised distance the body computes for entry [(b, j)]. *)
Definition normalised_dist (x : batch) (b j : nat) : float :=
  PrimFloat.div (torch_dist (at2 (target x) b j) (at2 (pred x) b j))
                (at1 (head_lengths x) b).

(** A sequence of [add] calls on one evaluator; a caller that catches an
    exception goes on with the meters as the failed call left them. *)
Definition add_all (xs : list batch) (ms : meters) : meters :=
  foldl (λ ms x, state_after (add x) ms) ms xs.

(** Every call either has no more joints than there are names, or
    returned without raising. *)
Fixpoint calls_complete (xs : list batch) (ms : meters) : Prop :=
  match xs with
  | [] => True
  | x :: xs' =>
      ((size1 (pred x) ≤ length JOINT_NAMES)%nat ∨ returns (add x) ms) ∧
      calls_complete xs' (state_after (add x) ms)
  end.

End Add.
Arguments batch : clear implicits.

(** The meters after sample [v] went into ['all'] and into [name]. *)
Definition recorded (name : string) (v : Z) (ms : meters) : meters :=
  alter (AverageValueMeter.add v) name
    (alter (AverageValueMeter.add v) "all"%string ms).

(** Sample counts and sums over the per-joint meters. *)
Definition joint_count (ms : meters) : nat :=
  sum_list ((λ name, from_option AverageValueMeter.n O (ms !! name)) <$> JOINT_NAMES).

Definition joint_sum (ms : meters) : Z :=
  foldr Z.add 0 ((λ name, from_option AverageValueMeter.sum 0 (ms !! name)) <$> JOINT_NAMES).

(** The aggregate meter holds as many samples, with the same sum, as the
    per-joint meters together, and every joint has its meter. *)
Definition balanced (ms : meters) : Prop :=
  (∀ name, name ∈ JOINT_NAMES → is_Some (ms !! name)) ∧
  ∃ a, ms !! "all"%string = Some a ∧
       AverageValueMeter.n a = joint_count ms ∧
       AverageValueMeter.sum a = joint_sum ms.

(** [reset] *)
Definition reset (ms : meters) : meters := AverageValueMeter.reset <$> ms.

End PCKhEvaluator.

(** ** JSON documents, as [json.load] returns them and [json.dump] takes them *)

Inductive json :=
| JNull
| JBool (b : bool)
| JInt (z : Z)
| JFloat (x : float)
| JStr (s : string)
| JArr (l : list json)
| JObj (m : gmap string json).

(** ** [str.format] with the step number as its only argument

    The fragment of the format mini-language the filename templates use:
    literal text, the escapes [{{] and [}}], and replacement fields
    [{}], [{0}], [{:04d}], [{0:4d}] and the like (an optional argument
    index, then optionally [:], a [0] flag, a width and the type [d]).
    A template outside the fragment yields [Unmodelled]. *)

Definition prepend (c : ascii) (r : exn + string) : exn + string :=
  match r with
  | inr s => inr (String c s)
  | inl e => inl e
  end.

Definition prepend_string (p : string) (r : exn + string) : exn + string :=
  match r with
  | inr s => inr (p +:+ s)
  | inl e => inl e
  end.

Definition is_digit (c : ascii) : bool :=
  let k := nat_of_ascii c in (48 <=? k)%nat && (k <=? 57)%nat.

Fixpoint all_digits (s : string) : bool :=
  match s with
  | EmptyString => true
  | String c s' => is_digit c && all_digits s'
  end.

Fixpoint digits_value (s : string) (acc : nat) : nat :=
  match s with
  | EmptyString => acc
  | String c s' => digits_value s' (10 * acc + (nat_of_ascii c - 48))%nat
  end.

(** The leading digits of [s] and what follows them. *)
Fixpoint span_digits (s : string) : string * string :=
  match s with
  | String c s' =>
      if is_digit c then
        let '(ds, rest) := span_digits s' in (String c ds, rest)
      else (EmptyString, s)
  | EmptyString => (EmptyString, EmptyString)
  end.

(** A field [name:spec] cut at its first colon. *)
Fixpoint split_colon (s : string) : string * option string :=
  match s with
  | EmptyString => (EmptyString, None)
  | String c s' =>
      if Ascii.eqb c ":" then (EmptyString, Some s')
      else let '(name, spec) := split_colon s' in (String c name, spec)
  end.

(** The format spec: zero flag and width; [None] outside the fragment. *)
Definition parse_spec (spec : string) : option (bool * nat) :=
  let '(zero, rest) :=
    match spec with
    | String "0" r => (true, r)
    | _ => (false, spec)
    end in
  let '(w, rest') := span_digits rest in
  match rest' with
  | EmptyString | String "d" EmptyString => Some (zero, digits_value w 0)
  | _ => None
  end.

Fixpoint replicate_char (k : nat) (c : ascii) : string :=
  match k with
  | O => EmptyString
  | S k' => String c (replicate_char k' c)
  end.

(** An integer under a spec: decimal digits, right-aligned in the width,
    padded with zeros under the [0] flag and with spaces otherwise. *)
Definition format_int (zero : bool) (width : nat) (arg : nat) : string :=
  let digits := pretty arg in
  replicate_char (width - String.length digits) (if zero then "0" else " ")%char
    +:+ digits.

(** Automatic ([{}]) against manual ([{0}]) field numbering. *)
Inductive numbering :=
| NoFieldYet
| Automatic (next : nat)
| Manual.

(** One replacement field, given the text between its braces. *)
Definition format_field (field : string) (nb : numbering) (arg : nat)
  : (exn + string) * numbering :=
  let '(name, spec) := split_colon field in
  if negb (all_digits name) then (inl Unmodelled, nb)
  else
    let auto := match name with EmptyString => true | _ => false end in
    let clash :=
      match nb with
      | NoFieldYet => false
      | Automatic _ => negb auto
      | Manual => auto
      end in
    if clash then (inl ValueError, nb)
    else
      let index :=
        if auto then match nb with Automatic next => next | _ => O end
        else digits_value name 0 in
      let nb' := if auto then Automatic (S index) else Manual in
      match index with
      | S _ => (inl IndexError, nb')
      | O =>
          match parse_spec (default EmptyString spec) with
          | Some (zero, width) => (inr (format_int zero width arg), nb')
          | None => (inl Unmodelled, nb')
          end
      end.

(** Where the scan of the template stands. *)
Inductive scan :=
| InText
| AfterOpen
| AfterClose
| InField (acc : string).

Fixpoint format_from (s : string) (sc : scan) (nb : numbering) (arg : nat)
  : exn + string :=
  match s with
  | EmptyString =>
      match sc with
      | InText => inr EmptyString
      | _ => inl ValueError
      end
  | String c s' =>
      match sc with
      | InText =>
          if Ascii.eqb c "{" then format_from s' AfterOpen nb arg
          else if Ascii.eqb c "}" then format_from s' AfterClose nb arg
          else prepend c (format_from s' InText nb arg)
      | AfterOpen =>
          if Ascii.eqb c "{" then prepend "{" (format_from s' InText nb arg)
          else if Ascii.eqb c "}" then
            match format_field EmptyString nb arg with
            | (inr out, nb') =>
                prepend_string out (format_from s' InText nb' arg)
            | (inl e, _) => inl e
            end
          else format_from s' (InField (String c EmptyString)) nb arg
      | AfterClose =>
          if Ascii.eqb c "}" then prepend "}" (format_from s' InText nb arg)
          else inl ValueError
      | InField acc =>
          if Ascii.eqb c "}" then
            match format_field acc nb arg with
            | (inr out, nb') =>
                prepend_string out (format_from s' InText nb' arg)
            | (inl e, _) => inl e
            end
          else if Ascii.eqb c "{" then inl Unmodelled
          else if Ascii.eqb c "!" then inl Unmodelled
          else format_from s' (InField (acc +:+ String c EmptyString)) nb arg
      end
  end.

(** [template.format(step_num)] *)
Definition str_format (template : string) (step_num : nat) : exn + string :=
  format_from template InText NoFieldYet step_num.


(** ** [os.path.join] on two POSIX paths *)

Fixpoint ends_with_sep (s : string) : bool :=
  match s with
  | EmptyString => false
  | String c EmptyString => Ascii.eqb c "/"
  | String _ s' => ends_with_sep s'
  end.

Definition path_join (a b : string) : string :=
  match b with
  | String "/" _ => b
  | _ =>
      match a with
      | EmptyString => b
      | _ => if ends_with_sep a then a +:+ b else a +:+ "/" +:+ b
      end
  end.

(** ** The file system and the calls a sink makes

    A flat store from path to node.  A file holds either a JSON document
    (what [json.dump] wrote and [json.load] parses back) or text that is
    no JSON document, the empty text of a file just opened for writing
    among them.  Permissions and missing parent directories are left out. *)

Inductive content :=
| Doc (j : json)
| Raw (text : string).

Inductive node :=
| Dir
| File (c : content).

(** The operations of the meter interface. *)
Inductive meter_op := OpValue | OpAdd | OpReset.

(** Every call that leaves the sink: into a meter object or into the
    operating system. *)
Inductive event :=
| MeterCall (name : string) (op : meter_op)
| IsFile (path : string)
| OpenRead (path : string)
| OpenWrite (path : string)
| Dump (path : string) (j : json)
| Rename (src dst : string)
| MakeDirs (path : string).

Record world := World {
  files : gmap string node;
  trace : list event
}.

Definition log (e : event) : Exec world unit :=
  λ w, (World (files w) (trace w ++ [e]), inr tt).

Definition set_file (path : string) (nd : node) : Exec world unit :=
  λ w, (World (<[path := nd]> (files w)) (trace w), inr tt).

(** [os.path.isfile(path)] *)
Definition isfile (path : string) : Exec world bool :=
  log (IsFile path);;
  w ← get;
  mret (match files w !! path with Some (File _) => true | _ => false end).

(** [with open(path, 'r') as f: json.load(f)] *)
Definition json_load (path : string) : Exec world json :=
  log (OpenRead path);;
  w ← get;
  match files w !! path with
  | Some (File (Doc j)) => mret j
  | Some (File (Raw _)) => raise ValueError
  | Some Dir => raise IsADirectoryError
  | None => raise FileNotFoundError
  end.

(** [open(path, 'w')]: creates the file or truncates it. *)
Definition open_w (path : string) : Exec world unit :=
  log (OpenWrite path);;
  w ← get;
  match files w !! path with
  | Some Dir => raise IsADirectoryError
  | _ => set_file path (File (Raw EmptyString))
  end.

(** [json.dump(j, f)] into the file opened at [path]. *)
Definition json_dump (path : string) (j : json) : Exec world unit :=
  log (Dump path j);;
  set_file path (File (Doc j)).

(** [os.makedirs(path)] *)
Definition makedirs (path : string) : Exec world unit :=
  log (MakeDirs path);;
  w ← get;
  match files w !! path with
  | Some _ => raise FileExistsError
  | None => set_file path Dir
  end.

(** What a call does to the store, had it been the last one before the
    process died. *)
Definition apply_event (e : event) (fs : gmap string node) : gmap string node :=
  match e with
  | OpenWrite path =>
      match fs !! path with
      | Some Dir => fs
      | _ => <[path := File (Raw EmptyString)]> fs
      end
  | Dump path j => <[path := File (Doc j)]> fs
  | Rename src dst =>
      match fs !! src with
      | Some nd => <[dst := nd]> (delete src fs)
      | None => fs
      end
  | MakeDirs path =>
      match fs !! path with
      | Some _ => fs
      | None => <[path := Dir]> fs
      end
  | MeterCall _ _ | IsFile _ | OpenRead _ => fs
  end.

Definition replay (evs : list event) (fs : gmap string node) : gmap string node :=
  foldl (λ fs e, apply_event e fs) fs evs.

(** The calls into meter objects among the calls made. *)
Definition is_meter_call (e : event) : bool :=
  match e with MeterCall _ _ => true | _ => false end.

Definition meter_calls (evs : list event) : list event :=
  List.filter is_meter_call evs.

(** Whether [target] was replaced the atomic way: written under another
    path that was then renamed over it, and never opened for writing
    itself. *)
Definition renamed_over (target : string) (e : event) : bool :=
  match e with
  | Rename src dst => bool_decide (dst = target) && negb (bool_decide (src = target))
  | _ => false
  end.

Definition opened_for_writing (target : string) (e : event) : bool :=
  match e with
  | OpenWrite path => bool_decide (path = target)
  | _ => false
  end.

Definition atomic_overwrite (evs : list event) (target : string) : bool :=
  existsb (renamed_over target) evs && negb (existsb (opened_for_writing target) evs).

(** [for x in xs: acc = body(acc, x)] *)
Fixpoint for_fold {S A B} (xs : list A) (acc : B) (body : B → A → Exec S B)
  : Exec S B :=
  match xs with
  | [] => mret acc
  | x :: xs' => acc' ← body acc x; for_fold xs' acc' body
  end.

(** ** The meter interface a view is handed

    [value] is given by the JSON encoding of what [meter.value()]
    returns. *)
Class Meter (M : Type) := {
  value : M → json;
  meter_add : json → M → M;
  meter_reset : M → M
}.

(** [meter.value()], called by a view on the meter registered as [name]. *)
Definition call_value `{Meter M} (name : string) (meter : M) : Exec world json :=
  log (MeterCall name OpValue);;
  mret (value meter).

(** ** [FolderCell] *)
Module FolderCell.

Inductive cell_class := JSONCell | GrowingJSONCell.

Record t := mk {
  class : cell_class;
  filename_template : string;
  dir_path : option string
}.

(** [__init__] *)
Definition init (cls : cell_class) (filename_template : string) : t :=
  mk cls filename_template None.

Definition set_dir (dir_path : string) (self : t) : t :=
  mk (class self) (filename_template self) (Some dir_path).

(** The file name is formatted first; joining it to a [dir_path] that is
    still [None] then raises [TypeError]. *)
Definition build_path (self : t) (step_num : nat) : exn + string :=
  match str_format (filename_template self) step_num with
  | inr name =>
      match dir_path self with
      | Some d => inr (path_join d name)
      | None => inl TypeError
      end
  | inl e => inl e
  end.

End FolderCell.

(** ** Python's dict and list operations on a loaded JSON value

    [json.load] may return any JSON value.  On a value that is no object
    every path through the loop body of [GrowingJSONCell.render] raises
    [TypeError] before it calls the meter ([in] itself on a number, bool or
    null; the item assignment or the item lookup on a string or an
    array), so the membership test raises it at once. *)

Definition py_contains (values : json) (key : string) : Exec world bool :=
  match values with
  | JObj m => mret (bool_decide (is_Some (m !! key)))
  | _ => raise TypeError
  end.

Definition py_setitem (values : json) (key : string) (v : json) : Exec world json :=
  match values with
  | JObj m => mret (JObj (<[key := v]> m))
  | _ => raise TypeError
  end.

Definition py_getitem (values : json) (key : string) : Exec world json :=
  match values with
  | JObj m =>
      match m !! key with
      | Some v => mret v
      | None => raise KeyError
      end
  | _ => raise TypeError
  end.

(** Looking up [.append]: only a list has it. *)
Definition py_append_method (seq : json) : Exec world (list json) :=
  match seq with
  | JArr l => mret l
  | _ => raise AttributeError
  end.

(** The sequence a loaded mapping holds under key [k]; empty when the key
    is absent. *)
Definition sequence_of (m : gmap string json) (k : string) : list json :=
  match m !! k with
  | Some (JArr l) => l
  | _ => []
  end.

(** ** [JSONCell] *)
Module JSONCell.
Section Render.
Context `{Meter M}.

Definition init (filename_template : string) : FolderCell.t :=
  FolderCell.init FolderCell.JSONCell filename_template.

Definition default_template : string := "metrics_{:04d}.json".

(** The body of the loop over [meters.items()]. *)
Definition collect (values : gmap string json) (item : string * M)
    : Exec world (gmap string json) :=
  let '(meter_name, meter) := item in
  v ← call_value meter_name meter;
  mret (<[meter_name := v]> values).

Definition render (self : FolderCell.t) (step_num : nat)
    (meters : list (string * M)) : Exec world unit :=
  path ← lift (FolderCell.build_path self step_num);
  values ← for_fold meters (∅ : gmap string json) collect;
  open_w path;;
  json_dump path (JObj values).

End Render.
End JSONCell.

(** ** [GrowingJSONCell] *)
Module GrowingJSONCell.
Section Render.
Context `{Meter M}.

Definition init (filename_template : string) : FolderCell.t :=
  FolderCell.init FolderCell.GrowingJSONCell filename_template.

Definition default_template : string := "saved_metrics.json".

(** The body of the loop over [meters.items()].  The list stored under
    the key is mutated in place, which the model writes as storing the
    longer list back. *)
Definition record (values : json) (item : string * M) : Exec world json :=
  let '(meter_name, meter) := item in
  present ← py_contains values meter_name;
  values ← (if (present : bool) then mret values else py_setitem values meter_name (JArr []));
  seq ← py_getitem values meter_name;
  l ← py_append_method seq;
  v ← call_value meter_name meter;
  py_setitem values meter_name (JArr (l ++ [v])).

Definition render (self : FolderCell.t) (step_num : nat)
    (meters : list (string * M)) : Exec world unit :=
  file_path ← lift (FolderCell.build_path self step_num);
  is_file ← isfile file_path;
  values ← (if (is_file : bool) then json_load file_path else mret (JObj ∅));
  values ← for_fold meters values record;
  open_w file_path;;
  json_dump file_path values.

(** What a process does with its view between start and exit: it renders
    a step, or it dies and comes back, building the view anew from the
    same template and directory. *)
Inductive action :=
| Render (step_num : nat) (meters : list (string * M))
| Restart.

Definition perform (filename_template dir_path : string) (cell : FolderCell.t)
    (a : action) : Exec world FolderCell.t :=
  match a with
  | Render step_num meters => render cell step_num meters;; mret cell
  | Restart => mret (FolderCell.set_dir dir_path (init filename_template))
  end.

Definition run (filename_template dir_path : string) (acts : list action)
    : Exec world FolderCell.t :=
  for_fold acts (FolderCell.set_dir dir_path (init filename_template))
    (perform filename_template dir_path).

(** The values handed in for key [k] by one render and by a whole run. *)
Definition supplied (k : string) (meters : list (string * M)) : list json :=
  omap (λ '(name, meter), if decide (name = k) then Some (value meter) else None)
       meters.

Definition supplied_by (k : string) (a : action) : list json :=
  match a with
  | Render _ meters => supplied k meters
  | Restart => []
  end.

(** What the loop over the meters makes of the loaded document: on a
    mapping, every key handed in gets its values appended to its sequence
    and every other key stays; a document that is no mapping only gets
    through an empty loop. *)
Definition appended (meters : list (string * M)) (before after : json) : Prop :=
  match before with
  | JObj m =>
      ∃ m', after = JObj m' ∧
            ∀ k, m' !! k =
                 if decide (k ∈ meters.*1)
                 then Some (JArr (sequence_of m k ++ supplied k meters))
                 else m !! k
  | _ => meters = [] ∧ after = before
  end.


End Render.
Arguments action M : clear implicits.
End GrowingJSONCell.

(** [cell.render(step_num, meters)], dispatched on the cell's class. *)
Definition render_cell `{Meter M} (cell : FolderCell.t) (step_num : nat)
    (meters : list (string * M)) : Exec world unit :=
  match FolderCell.class cell with
  | FolderCell.JSONCell => JSONCell.render cell step_num meters
  | FolderCell.GrowingJSONCell => GrowingJSONCell.render cell step_num meters
  end.

(** The calls a view makes when it calls [value()] on each meter it was
    handed, in order. *)
Definition value_calls {M} (meters : list (string * M)) : list event :=
  (λ item, MeterCall item.1 OpValue) <$> meters.

(** The array persisted under key [k] in the JSON file at [path]. *)
Definition persisted (fs : gmap string node) (path k : string) : option (list json) :=
  match fs !! path with
  | Some (File (Doc (JObj m))) =>
      match m !! k with
      | Some (JArr l) => Some l
      | _ => None
      end
  | _ => None
  end.

(** ** [FolderOutput] *)
Module FolderOutput.

Record t := mk {
  dir_path : string;
  cell_list : list (list string * FolderCell.t)
}.

Section Prepare.

(** [tele.TelemetryOutput.prepare], the base class method, is not part of
    the sources at hand: it is taken as a check of the registered meter
    names against the views' subscriptions that returns or raises. *)
Variable super_prepare : t → list string → option exn.

Definition prepare (self : t) (meters : list string) : Exec world t :=
  match super_prepare self meters with
  | Some e => raise e
  | None =>
      makedirs (dir_path self);;
      mret (mk (dir_path self)
               (prod_map id (FolderCell.set_dir (dir_path self)) <$> cell_list self))
  end.

End Prepare.
End FolderOutput.

(** ** What a batch adds up to

    The samples of a batch, read off its tensors alone, and the meters with
    those samples recorded. *)
Module PCKhTally.
Import PCKhEvaluator.
Section Samples.
Context {point : Type}.
Variable torch_dist : point → point → float.

(** What [add] needs of entry [(b, j)] to get past it: the mask entry is
    there and, when the mask is set, so are both slices, a head length
    that is not zero and a name for the joint. *)
Definition entry_ok (x : batch point) (b j : nat) : Prop :=
  (b < size0 (joint_mask x))%nat ∧ (j < size1 (joint_mask x))%nat ∧
  (at2 (joint_mask x) b j = 1 →
   operands_ok x b j ∧ (j < length JOINT_NAMES)%nat).

(** The sample of entry [(b, j)]: the joint's name and the hit or miss. *)
Definition entry_sample (x : batch point) (b j : nat) : option (string * Z) :=
  if at2 (joint_mask x) b j =? 1 then
    match JOINT_NAMES !! j with
    | Some name => Some (name, thresholded (normalised_dist torch_dist x b j))
    | None => None
    end
  else None.

(** The samples of the batch, in the order of the two loops. *)
Definition samples (x : batch point) : list (string * Z) :=
  b ← range (size0 (pred x));
  j ← range (size1 (pred x));
  option_list (entry_sample x b j).

End Samples.

(** The meters with a list of samples recorded, one after the other. *)
Definition tally (l : list (string * Z)) (ms : meters) : meters :=
  foldl (λ ms sample, recorded sample.1 sample.2 ms) ms l.

(** ['all'] and every joint have their meter. *)
Definition has_all_meters (ms : meters) : Prop :=
  ∀ name, name ∈ "all"%string :: JOINT_NAMES → is_Some (ms !! name).

(** A meter of hits and misses: its sum counts the hits among its
    samples, and squaring a sample changes nothing. *)
Definition counts_hits (m : AverageValueMeter.t) : Prop :=
  0 ≤ AverageValueMeter.sum m ≤ Z.of_nat (AverageValueMeter.n m) ∧
  AverageValueMeter.var m = AverageValueMeter.sum m.

End PCKhTally.

(** ** Logs a render can go on from *)

(** Every entry of a mapping is an array. *)
Definition all_arrays (m : gmap string json) : Prop :=
  ∀ k v, m !! k = Some v → ∃ l, v = JArr l.



(** ** [PoseResultsFrame]: stepping through the samples

    The frame of [src/src/dsnt/gui.py], as far as its current sample goes.
    The text of the sample box is given by the integer it reads as, if
    any ([int(...)] raises [ValueError] otherwise); loading and drawing the
    image are the toolkit's, and the frame records which dataset index it
    showed. *)

(** Python's [x % n] on integers. *)
Definition py_mod {S} (x n : Z) : Exec S Z :=
  if n =? 0 then raise ZeroDivisionError else mret (x `mod` n).

(** Python's [l[i]]: a negative index counts from the end. *)
Definition py_index {S A} (l : list A) (i : Z) : Exec S A :=
  let k := if i <? 0 then Z.of_nat (length l) + i else i in
  if k <? 0 then raise IndexError
  else match l !! Z.to_nat k with
       | Some a => mret a
       | None => raise IndexError
       end.

Module PoseResultsFrame.

Record t := mk {
  var_cur_sample : option Z;
  subset_indices : list Z;
  destroyed : bool;
  shown : list Z
}.

(** The [cur_sample] property: its getter and its setter. *)
Definition cur_sample : Exec t Z :=
  self ← get;
  match var_cur_sample self with
  | Some value => mret value
  | None => raise ValueError
  end.

Definition set_cur_sample (value : Z) : Exec t unit :=
  self ← get;
  put (mk (Some value) (subset_indices self) (destroyed self) (shown self)).

(** [self.master.destroy()] *)
Definition destroy : Exec t unit :=
  self ← get;
  put (mk (var_cur_sample self) (subset_indices self) true (shown self)).

(** [update_image]: the lookup of the dataset index, then the drawing. *)
Definition update_image : Exec t unit :=
  cur ← cur_sample;
  self ← get;
  index ← py_index (subset_indices self) cur;
  put (mk (var_cur_sample self) (subset_indices self) (destroyed self)
          (shown self ++ [index])).

Definition on_key (keysym : string) : Exec t unit :=
  cur ← cur_sample;
  if bool_decide (keysym = "Escape"%string) then destroy
  else
    self ← get;
    let n := Z.of_nat (length (subset_indices self)) in
    let cur := if bool_decide (keysym = "Right"%string) then cur + 1 else cur in
    let cur := if bool_decide (keysym = "Left"%string) then cur - 1 else cur in
    let cur := if bool_decide (keysym = "Home"%string) then 0 else cur in
    let cur := if bool_decide (keysym = "End"%string) then n - 1 else cur in
    value ← py_mod cur n;
    set_cur_sample value;;
    update_image.

(** The key handler of the sample box: [Return] redraws with what was
    typed (the focus changes are the toolkit's). *)
Definition on_key_cur_sample (keysym : string) : Exec t unit :=
  if bool_decide (keysym = "Return"%string) then update_image else mret tt.

End PoseResultsFrame.

(** ** [src/dsnt/model.py]: which model gets built

    The values of keyword arguments and command-line options. *)
Inductive pyval :=
| PyInt (z : Z)
| PyFloat (x : float)
| PyStr (s : string).

Module PoseModel.

(** The constructor call a builder ends in.  Building the network itself
    (torchvision's ResNet and its pretrained weights, the hourglass) is
    the libraries'. *)
Inductive call :=
| ResNetHumanPoseModel (resnet : string) (n_chans : Z)
    (dilate truncate output_strat : pyval)
| HourglassHumanPoseModel (num_stacks num_blocks : pyval) (n_chans : Z).

(** [raise Exception('unsupported base model type: ' + base)] *)
Definition unsupported (base : string) : string :=
  "unsupported base model type: " +:+ base.

(** A keyword argument, or the default of its parameter. *)
Definition keyword (kwargs : gmap string pyval) (name : string) (dflt : pyval) : pyval :=
  default dflt (kwargs !! name).

Definition _build_resnet_pose_model (base : string) (kwargs : gmap string pyval)
  : string + call :=
  let dilate := keyword kwargs "dilate" (PyInt 0) in
  let truncate := keyword kwargs "truncate" (PyInt 0) in
  let output_strat := keyword kwargs "output_strat" (PyStr "dsnt") in
  if decide (base = "resnet18"%string) then
    inr (ResNetHumanPoseModel "resnet18" 16 dilate truncate output_strat)
  else if decide (base = "resnet34"%string) then
    inr (ResNetHumanPoseModel "resnet34" 16 dilate truncate output_strat)
  else if decide (base = "resnet50"%string) then
    inr (ResNetHumanPoseModel "resnet50" 16 dilate truncate output_strat)
  else if decide (base = "resnet101"%string) then
    inr (ResNetHumanPoseModel "resnet101" 16 dilate truncate output_strat)
  else if decide (base = "resnet152"%string) then
    inr (ResNetHumanPoseModel "resnet152" 16 dilate truncate output_strat)
  else inl (unsupported base).

Definition _build_hg_model (base : string) (kwargs : gmap string pyval)
  : string + call :=
  let stacks := keyword kwargs "stacks" (PyInt 2) in
  let blocks := keyword kwargs "blocks" (PyInt 1) in
  if decide (base = "hg"%string) then inr (HourglassHumanPoseModel stacks blocks 16)
  else if decide (base = "hg1"%string) then
    inr (HourglassHumanPoseModel (PyInt 1) blocks 16)
  else if decide (base = "hg2"%string) then
    inr (HourglassHumanPoseModel (PyInt 2) blocks 16)
  else if decide (base = "hg4"%string) then
    inr (HourglassHumanPoseModel (PyInt 4) blocks 16)
  else if decide (base = "hg8"%string) then
    inr (HourglassHumanPoseModel (PyInt 8) blocks 16)
  else inl (unsupported base).

(** The parameters of a builder that have a default, as
    [inspect.signature] lists them. *)
Definition resnet_params : list string := ["dilate"; "truncate"; "output_strat"]%string.
Definition hg_params : list string := ["stacks"; "blocks"]%string.

(** [{k: kwargs[k] for k in param_names if k in kwargs}] *)
Definition known_kwargs (param_names : list string) (kwargs : gmap string pyval)
  : gmap string pyval :=
  filter (λ kv, kv.1 ∈ param_names) kwargs.

Definition build_mpii_pose_model (base : string) (kwargs : gmap string pyval)
  : string + call :=
  if String.prefix "resnet" base then
    _build_resnet_pose_model base (known_kwargs resnet_params kwargs)
  else if String.prefix "hg" base then
    _build_hg_model base (known_kwargs hg_params kwargs)
  else inl (unsupported base).

(** The base names the builders know. *)
Definition supported_bases : list string :=
  ["resnet18"; "resnet34"; "resnet50"; "resnet101"; "resnet152";
   "hg"; "hg1"; "hg2"; "hg4"; "hg8"]%string.

(** *** Dilating the last layer groups in [ResNetHumanPoseModel.__init__] *)

(** A [nn.Conv2d] module, as far as the constructor reads and sets it. *)
Record Conv2d := mkConv2d {
  stride : Z * Z;
  kernel_size : Z * Z;
  dilation : Z * Z;
  padding : Z * Z
}.

(** The body of the loop over [layer.modules()], on a module that is a
    [nn.Conv2d]. *)
Definition dilate_module (dilx dily : Z) (module : Conv2d) : Conv2d :=
  if decide (stride module = (2, 2)) then
    mkConv2d (1, 1) (kernel_size module) (dilation module) (padding module)
  else if decide (kernel_size module = (3, 3)) then
    let '(kx, ky) := kernel_size module in
    mkConv2d (stride module) (kernel_size module) (dilx, dily)
             ((dilx * (kx - 1) + 1) `div` 2, (dily * (ky - 1) + 1) `div` 2)
  else module.

(** Where Python's [l[start:]] starts, for a list of [n] elements. *)
Definition slice_start (start : Z) (n : nat) : nat :=
  if start <? 0 then Z.to_nat (Z.max 0 (Z.of_nat n + start))
  else Nat.min (Z.to_nat start) n.

(** The layer groups after the loop: a group is given by its [nn.Conv2d]
    modules; the groups of [layers[len(layers) - dilate:]] are changed in
    place, the [i]-th of them with dilation [2 ** (i + 1)]. *)
Definition dilate_layers (layers : list (list Conv2d)) (dilate : Z)
  : list (list Conv2d) :=
  let start := slice_start (Z.of_nat (length layers) - dilate) (length layers) in
  take start layers ++
  imap (λ i layer, dilate_module (2 ^ (Z.of_nat i + 1)) (2 ^ (Z.of_nat i + 1)) <$> layer)
       (drop start layers).

(** The lines after the loop: the groups of [layers[:len(layers)-truncate]]
    go into [self.fcn], and [feats] is the number of input channels of
    [self.hm_conv].  A slice ends where it would start; [in_channels layer]
    stands for [layer[0].conv1.in_channels] and [fc_in_features] for
    [resnet.fc.in_features]. *)
Definition truncate_layers {S L} (in_channels : L → Z) (fc_in_features : Z)
    (layers : list L) (truncate : Z) : Exec S (list L * Z) :=
  let fcn := take (slice_start (Z.of_nat (length layers) - truncate) (length layers))
                  layers in
  if 0 <? truncate then
    layer ← py_index layers (- truncate);
    mret (fcn, in_channels layer)
  else mret (fcn, fc_in_features).

End PoseModel.

(** ** [parse_args] of [src/src/dsnt/bin/train.py]: the defaults

    The options as [argparse] hands them over, and what [parse_args]
    makes of them before it returns. *)
#[local] Set Warnings "-inexact-float".

Module TrainArgs.

Record t := mk {
  optim : string;
  lr : option pyval;
  schedule_gamma : option pyval;
  schedule_milestones : option (list Z);
  seed : option Z
}.

(** Python's truth value of a number. *)
Definition truthy (v : pyval) : bool :=
  match v with
  | PyInt z => negb (z =? 0)
  | PyFloat x => negb (PrimFloat.eqb x 0%float)
  | PyStr s => negb (bool_decide (s = EmptyString))
  end.

(** [x or dflt], for an option that is a number or [None], and for one
    that is a list or [None]. *)
Definition or_number (x : option pyval) (dflt : pyval) : pyval :=
  match x with
  | Some v => if truthy v then v else dflt
  | None => dflt
  end.

Definition or_list (x : option (list Z)) (dflt : list Z) : list Z :=
  match x with
  | Some (z :: l) => z :: l
  | _ => dflt
  end.

(** The lines after [parser.parse_args()]; [drawn] is what
    [np.random.randint(0, 999999)] returns when it is called. *)
Definition set_defaults (drawn : Z) (args : t) : t :=
  let seed := match seed args with None => Some drawn | Some s => Some s end in
  if decide (optim args = "sgd"%string) then
    mk (optim args)
       (Some (or_number (lr args) (PyFloat 0.2)))
       (Some (or_number (schedule_gamma args) (PyFloat 0.5)))
       (Some (or_list (schedule_milestones args) [20; 40; 60; 80; 120; 140; 160; 180]))
       seed
  else if decide (optim args = "rmsprop"%string) then
    mk (optim args)
       (Some (or_number (lr args) (PyFloat 2.5e-4)))
       (Some (or_number (schedule_gamma args) (PyFloat 0.1)))
       (Some (or_list (schedule_milestones args) [60; 90]))
       seed
  else if decide (optim args = "1cycle"%string) then
    mk (optim args) (Some (or_number (lr args) (PyInt 1))) None None seed
  else mk (optim args) (lr args) (schedule_gamma args) (schedule_milestones args) seed.

End TrainArgs.

(** ** Concrete inputs

    Points on a line with their distance, a last-value meter, and a few
    batches, worlds and views to run the definitions on. *)
Module Examples.

Definition line_dist (a b : float) : float := PrimFloat.abs (PrimFloat.sub a b).

(** One sample, sixteen joints, head length 10; the prediction lies
    [off] away from the target; only joint 10 ("rwrist") is annotated. *)
Definition one_sample (off : float) : PCKhEvaluator.batch float :=
  PCKhEvaluator.Batch
    (Tensor2 1 16 (λ _ _, off))
    (Tensor2 1 16 (λ _ _, 0%float))
    (Tensor2 1 16 (λ _ j, if (j =? 10)%nat then 1 else 0))
    (Tensor1 1 (λ _, 10%float)).

(** The same shape with no joint annotated. *)
Definition nothing_annotated : PCKhEvaluator.batch float :=
  PCKhEvaluator.Batch
    (Tensor2 2 16 (λ _ _, 3%float))
    (Tensor2 2 16 (λ _ _, 0%float))
    (Tensor2 2 16 (λ _ _, 0))
    (Tensor1 2 (λ _, 10%float)).

(** One sample with a seventeenth joint, every joint annotated. *)
Definition seventeen_joints : PCKhEvaluator.batch float :=
  PCKhEvaluator.Batch
    (Tensor2 1 17 (λ _ _, 3%float))
    (Tensor2 1 17 (λ _ _, 0%float))
    (Tensor2 1 17 (λ _ _, 1))
    (Tensor1 1 (λ _, 10%float)).

(** One sample whose head length is not a number. *)
Definition nan_head : PCKhEvaluator.batch float :=
  PCKhEvaluator.Batch
    (Tensor2 1 16 (λ _ _, 5%float))
    (Tensor2 1 16 (λ _ _, 0%float))
    (Tensor2 1 16 (λ _ j, if (j =? 10)%nat then 1 else 0))
    (Tensor1 1 (λ _, PrimFloat.nan)).


(** A meter that holds the last value it was given. *)
Record ValueMeter := { held : json }.

#[global] Instance ValueMeter_Meter : Meter ValueMeter := {|
  value := held;
  meter_add := λ v _, {| held := v |};
  meter_reset := λ _, {| held := JNull |}
|}.

Definition loss (z : Z) : string * ValueMeter := ("loss"%string, {| held := JInt z |}).
Definition epoch (z : Z) : string * ValueMeter := ("epoch"%string, {| held := JInt z |}).

Definition empty_world : world := World ∅ [].

Definition log_path : string := "out/saved_metrics.json".

(** A run directory whose log already holds one step. *)
Definition logged_world : world :=
  World (<[log_path := File (Doc (JObj (<["epoch"%string := JArr [JInt 0]]>
                                        (<["loss"%string := JArr [JInt 7]]> ∅))))]>
         (<["out"%string := Dir]> ∅)) [].

Definition growing_cell : FolderCell.t :=
  FolderCell.set_dir "out" (GrowingJSONCell.init GrowingJSONCell.default_template).


(** Two steps with a restart of the process in between. *)
Definition two_steps : list (GrowingJSONCell.action ValueMeter) :=
  [GrowingJSONCell.Render 0 [loss 3; epoch 0];
   GrowingJSONCell.Restart;
   GrowingJSONCell.Render 1 [loss 2; epoch 1]].

Definition output : FolderOutput.t :=
  FolderOutput.mk "out" [(["loss"; "epoch"]%string,
                          GrowingJSONCell.init GrowingJSONCell.default_template)].

(** A log that is no JSON document, one whose loss is no array, and a
    directory where the log should be. *)
Definition garbled_world : world :=
  World (<[log_path := File (Raw "{loss: [7")]> (<["out"%string := Dir]> ∅)) [].

Definition scalar_world : world :=
  World (<[log_path := File (Doc (JObj (<["loss"%string := JInt 7]> ∅)))]>
         (<["out"%string := Dir]> ∅)) [].

Definition blocked_world : world :=
  World (<[log_path := Dir]> (<["out"%string := Dir]> ∅)) [].

(** A frame on four samples of the dataset, at the last one. *)
Definition four_samples : PoseResultsFrame.t :=
  PoseResultsFrame.mk (Some 3) [11; 12; 15; 19] false [].

(** The description of the model as the training script passes it on. *)
Definition model_desc : gmap string pyval :=
  <["dilate"%string := PyInt 2]> (<["truncate"%string := PyInt 0]>
  (<["output_strat"%string := PyStr "dsnt"]> (<["preact"%string := PyStr "softmax"]>
  (<["reg"%string := PyStr "none"]> (<["reg_coeff"%string := PyFloat 1]>
  (<["hm_sigma"%string := PyFloat 1]> ∅)))))).

(** Three layer groups of two convolutions each: a 3x3 convolution of
    stride 2 and a 3x3 convolution of stride 1. *)
Definition three_groups : list (list PoseModel.Conv2d) :=
  replicate 3 [PoseModel.mkConv2d (2, 2) (3, 3) (1, 1) (1, 1);
               PoseModel.mkConv2d (1, 1) (3, 3) (1, 1) (1, 1)].

(** The options of a run with [--optim sgd --lr 0 --seed 0]. *)
Definition sgd_zero_lr : TrainArgs.t :=
  TrainArgs.mk "sgd" (Some (PyFloat 0)) None None (Some 0).

(** A base-class check that accepts every registry. *)
Definition accept_all (_ : FolderOutput.t) (_ : list string) : option exn := None.

End Examples.

(** * Properties *)

(** ** The monad *)

Ltac exec_unfold :=
  unfold mbind, mret, Exec_bind, Exec_ret, exec_bind, exec_ret, raise, get,
    put, lift in *.

Lemma for_each_noop {S A} (xs : list A) (body : A → Exec S unit) (s : S) :
  (∀ x, x ∈ xs → body x s = (s, inr tt)) →
  for_each xs body s = (s, inr tt).
Proof.
  induction xs as [|x xs IH]; intros Hbody; simpl; [done|].
  exec_unfold. rewrite Hbody by left.
  apply IH. intros y Hy. apply Hbody. by right.
Qed.

Lemma for_each_cons {S A} (x : A) (xs : list A) (body : A → Exec S unit) (s : S) :
  for_each (x :: xs) body s =
  match body x s with
  | (s', inr _) => for_each xs body s'
  | (s', inl e) => (s', inl e)
  end.
Proof. reflexivity. Qed.

(** An invariant of the state survives a loop when every round keeps it,
    where a round is either known to be harmless or has returned. *)
Lemma for_each_inv {S A} (I : S → Prop) (good : A → Prop) (xs : list A)
    (body : A → Exec S unit) (s : S) :
  (∀ x s, x ∈ xs → I s → good x ∨ returns (body x) s → I (state_after (body x) s)) →
  I s →
  (∀ x, x ∈ xs → good x) ∨ returns (for_each xs body) s →
  I (state_after (for_each xs body) s).
Proof.
  revert s. induction xs as [|x xs IH]; intros s Hbody Hs Hok; [done|].
  unfold state_after, returns in *. rewrite for_each_cons in *.
  specialize (Hbody x s) as Hx.
  destruct (body x s) as [s' [e|[]]] eqn:Hrun; simpl in *.
  - apply Hx; [left|done|]. destruct Hok as [Hgood|[? ?]]; [|done].
    left. apply Hgood. left.
  - apply IH.
    + intros y t Hy. apply Hbody. by right.
    + apply Hx; [left|done|]. right. by eexists.
    + destruct Hok as [Hgood|Hret]; [left|by right].
      intros y Hy. apply Hgood. by right.
Qed.

Lemma elem_of_range (n i : nat) : i ∈ range n ↔ (i < n)%nat.
Proof. unfold range. rewrite elem_of_seq. lia. Qed.

(** ** Comparisons on binary64 floats *)





(** ** [PCKhEvaluator] *)

Section PCKhFacts.
Import PCKhEvaluator.
Context {point : Type} (torch_dist : point → point → float).

Lemma index2_in_range {S A} (t : tensor2 A) (b j : nat) (s : S) :
  (b < size0 t)%nat → (j < size1 t)%nat → index2 t b j s = (s, inr (at2 t b j)).
Proof.
  intros Hb Hj. unfold index2.
  apply Nat.ltb_lt in Hb, Hj. by rewrite Hb, Hj.
Qed.

Lemma index1_in_range {S A} (t : tensor1 A) (b : nat) (s : S) :
  (b < len1 t)%nat → index1 t b s = (s, inr (at1 t b)).
Proof. intros Hb. unfold index1. apply Nat.ltb_lt in Hb. by rewrite Hb. Qed.

Lemma add_entry_unmasked (x : batch point) (b j : nat) (ms : meters) :
  unmasked x b j → add_entry torch_dist x b j ms = (ms, inr tt).
Proof.
  intros (Hb & Hj & Hm). unfold add_entry.
  unfold mbind, Exec_bind, exec_bind. rewrite index2_in_range by done.
  apply Z.eqb_neq in Hm. by rewrite Hm.
Qed.

(** C3: an entry whose mask value is not set is skipped, leaving every
    meter as it was; a batch whose mask is not set anywhere leaves the
    evaluator's meters unchanged, counts and sums alike. *)
Theorem unmasked_entries_skipped (x : batch point) (ms : meters) :
  (∀ b j, unmasked x b j → add_entry torch_dist x b j ms = (ms, inr tt)) ∧
  ((∀ b j, (b < size0 (pred x))%nat → (j < size1 (pred x))%nat → unmasked x b j) →
   add torch_dist x ms = (ms, inr tt)).
Proof.
  split; [intros b j; apply add_entry_unmasked|].
  intros Hall. unfold add. apply for_each_noop. intros b Hb%elem_of_range.
  apply for_each_noop. intros j Hj%elem_of_range.
  apply add_entry_unmasked. by apply Hall.
Qed.

Lemma alter_present {A} (f : A → A) (k : string) (a : A) (m : gmap string A) :
  m !! k = Some a → alter f k m = <[k := f a]> m.
Proof.
  intros Hk. apply map_eq. intros i.
  rewrite lookup_alter, lookup_insert.
  case_decide; subst; by rewrite ?Hk.
Qed.

Lemma meter_add_eq (name : string) (v : Z) (ms : meters) :
  meter_add name v ms =
  match ms !! name with
  | Some m => (<[name := AverageValueMeter.add v m]> ms, inr tt)
  | None => (ms, inl KeyError)
  end.
Proof. unfold meter_add. exec_unfold. by destruct (ms !! name). Qed.

Lemma add_entry_masked (x : batch point) (b j : nat) (ms : meters) :
  masked x b j → operands_ok x b j →
  add_entry torch_dist x b j ms =
  record_sample j (thresholded (normalised_dist torch_dist x b j)) ms.
Proof.
  intros (Hb & Hj & Hm) (Ht0 & Ht1 & Hp0 & Hp1 & Hh & Hz).
  unfold add_entry. unfold mbind at 1, Exec_bind, exec_bind.
  rewrite index2_in_range, Hm by done. simpl.
  unfold mbind at 1, Exec_bind, exec_bind. rewrite index2_in_range by done.
  unfold mbind at 1, Exec_bind, exec_bind. rewrite index2_in_range by done.
  unfold mbind at 1, Exec_bind, exec_bind. rewrite index1_in_range by done.
  unfold mbind at 1, Exec_bind, exec_bind. unfold truediv. rewrite Hz.
  reflexivity.
Qed.

Lemma record_sample_ok (j : nat) (v : Z) (name : string) (ms : meters) :
  JOINT_NAMES !! j = Some name → name ≠ "all"%string →
  is_Some (ms !! "all"%string) → is_Some (ms !! name) →
  record_sample j v ms = (recorded name v ms, inr tt).
Proof.
  intros Hname Hne [a Ha] [m Hm]. unfold record_sample, recorded.
  unfold mbind, Exec_bind, exec_bind. rewrite meter_add_eq, Ha.
  unfold joint_name. rewrite Hname. unfold mret, Exec_ret, exec_ret.
  rewrite meter_add_eq, lookup_insert_ne, Hm by done.
  rewrite (alter_present _ _ _ _ Ha).
  by rewrite (alter_present _ name m) by by rewrite lookup_insert_ne.
Qed.

Lemma all_not_a_joint : "all"%string ∉ JOINT_NAMES.
Proof. apply (bool_decide_unpack _). by vm_compute. Qed.

Lemma joint_names_nodup : NoDup JOINT_NAMES.
Proof. apply (bool_decide_unpack _). by vm_compute. Qed.

Lemma joint_name_not_all (j : nat) (name : string) :
  JOINT_NAMES !! j = Some name → name ≠ "all"%string.
Proof.
  intros Hj ->. apply all_not_a_joint. by eapply list_elem_of_lookup_2.
Qed.


Lemma thresholded_bit (d : float) : thresholded d = 0 ∨ thresholded d = 1.
Proof. unfold thresholded. destruct (PrimFloat.leb _ _); auto. Qed.

(** The body, with its checks in the order they are made. *)
Lemma add_entry_eq (x : batch point) (b j : nat) (ms : meters) :
  add_entry torch_dist x b j ms =
  if (b <? size0 (joint_mask x))%nat && (j <? size1 (joint_mask x))%nat then
    if at2 (joint_mask x) b j =? 1 then
      if (b <? size0 (target x))%nat && (j <? size1 (target x))%nat then
        if (b <? size0 (pred x))%nat && (j <? size1 (pred x))%nat then
          if (b <? len1 (head_lengths x))%nat then
            if PrimFloat.eqb (at1 (head_lengths x) b) 0%float
            then (ms, inl ZeroDivisionError)
            else record_sample j (thresholded (normalised_dist torch_dist x b j)) ms
          else (ms, inl IndexError)
        else (ms, inl IndexError)
      else (ms, inl IndexError)
    else (ms, inr tt)
  else (ms, inl IndexError).
Proof.
  unfold add_entry, index2, index1, truediv, record_sample, normalised_dist.
  unfold mbind, Exec_bind, exec_bind.
  destruct (_ && _); [|done]. simpl.
  destruct (_ =? 1); [|done].
  destruct (_ && _); [|done]. simpl.
  destruct (_ && _); [|done]. simpl.
  destruct (_ <? _)%nat; [|done]. simpl.
  by destruct (PrimFloat.eqb _ _).
Qed.

(** The body either leaves the meters alone or ends in [record_sample]. *)
Lemma add_entry_shape (x : batch point) (b j : nat) (ms : meters) :
  (¬ masked x b j ∧ add_entry torch_dist x b j ms = (ms, inr tt)) ∨
  (∃ e, add_entry torch_dist x b j ms = (ms, inl e)) ∨
  (masked x b j ∧
   add_entry torch_dist x b j ms =
   record_sample j (thresholded (normalised_dist torch_dist x b j)) ms).
Proof.
  rewrite add_entry_eq. unfold masked.
  destruct (_ && _) eqn:Hin; [|right; left; by eexists].
  apply andb_true_iff in Hin as [Hb%Nat.ltb_lt Hj%Nat.ltb_lt].
  destruct (_ =? 1) eqn:Hm.
  - apply Z.eqb_eq in Hm.
    destruct (_ && _); [|right; left; by eexists].
    destruct (_ && _); [|right; left; by eexists].
    destruct (_ <? _)%nat; [|right; left; by eexists].
    destruct (PrimFloat.eqb _ _); [right; left; by eexists|].
    by right; right.
  - apply Z.eqb_neq in Hm. left. split; [|done]. by intros (_ & _ & ?).
Qed.

(** Sums over a list of names when one meter is replaced. *)
Lemma fmap_lookup_insert_other {A B} (g : option A → B) (names : list string)
    (k : string) (a : A) (m : gmap string A) :
  k ∉ names →
  (λ name, g (<[k := a]> m !! name)) <$> names = (λ name, g (m !! name)) <$> names.
Proof.
  intros Hk. apply list_fmap_ext. intros i name Hi.
  rewrite lookup_insert_ne; [done|]. intros ->. apply Hk.
  by eapply list_elem_of_lookup_2.
Qed.

Lemma count_insert (names : list string) (k : string) (a a' : AverageValueMeter.t)
    (ms : meters) :
  NoDup names → k ∈ names → ms !! k = Some a →
  (sum_list ((λ name, from_option AverageValueMeter.n O (<[k := a']> ms !! name)) <$> names)
   + AverageValueMeter.n a =
   sum_list ((λ name, from_option AverageValueMeter.n O (ms !! name)) <$> names)
   + AverageValueMeter.n a')%nat.
Proof.
  intros Hnd Hk Ha. induction names as [|name names IH]; [by apply elem_of_nil in Hk|].
  apply NoDup_cons in Hnd as [Hname Hnd]. rewrite !fmap_cons. simpl.
  apply elem_of_cons in Hk as [->|Hk].
  - rewrite (fmap_lookup_insert_other (from_option AverageValueMeter.n O)) by done.
    rewrite lookup_insert_eq, Ha. simpl. lia.
  - rewrite lookup_insert_ne by (intros ->; done).
    specialize (IH Hnd Hk). lia.
Qed.

Lemma sum_insert (names : list string) (k : string) (a a' : AverageValueMeter.t)
    (ms : meters) :
  NoDup names → k ∈ names → ms !! k = Some a →
  foldr Z.add 0 ((λ name, from_option AverageValueMeter.sum 0 (<[k := a']> ms !! name)) <$> names)
   + AverageValueMeter.sum a =
  foldr Z.add 0 ((λ name, from_option AverageValueMeter.sum 0 (ms !! name)) <$> names)
   + AverageValueMeter.sum a'.
Proof.
  intros Hnd Hk Ha. induction names as [|name names IH]; [by apply elem_of_nil in Hk|].
  apply NoDup_cons in Hnd as [Hname Hnd]. rewrite !fmap_cons. simpl.
  apply elem_of_cons in Hk as [->|Hk].
  - rewrite (fmap_lookup_insert_other (from_option AverageValueMeter.sum 0)) by done.
    rewrite lookup_insert_eq, Ha. simpl. lia.
  - rewrite lookup_insert_ne by (intros ->; done).
    specialize (IH Hnd Hk). lia.
Qed.

Lemma recorded_insert (name : string) (v : Z) (a m : AverageValueMeter.t) (ms : meters) :
  name ≠ "all"%string → ms !! "all"%string = Some a → ms !! name = Some m →
  recorded name v ms =
  <[name := AverageValueMeter.add v m]> (<["all"%string := AverageValueMeter.add v a]> ms).
Proof.
  intros Hne Ha Hm. unfold recorded.
  rewrite (alter_present _ _ _ _ Ha).
  by rewrite (alter_present _ name m) by by rewrite lookup_insert_ne.
Qed.

Lemma balanced_recorded (name : string) (v : Z) (ms : meters) :
  name ∈ JOINT_NAMES → balanced ms → balanced (recorded name v ms).
Proof.
  intros Hname (Hjoints & a & Ha & Hn & Hs).
  destruct (Hjoints name Hname) as [m Hm].
  assert (name ≠ "all"%string) as Hne by (intros ->; by apply all_not_a_joint).
  rewrite (recorded_insert name v a m) by done. split.
  - intros k Hk. destruct (Hjoints k Hk) as [mk Hmk].
    rewrite !lookup_insert. repeat case_decide; eauto.
  - exists (AverageValueMeter.add v a). split_and!.
    + by rewrite lookup_insert_ne, lookup_insert_eq.
    + unfold joint_count.
      pose proof (count_insert JOINT_NAMES name m (AverageValueMeter.add v m)
        (<["all"%string := AverageValueMeter.add v a]> ms) joint_names_nodup Hname) as Hc.
      rewrite lookup_insert_ne in Hc by done. specialize (Hc Hm).
      rewrite (fmap_lookup_insert_other (from_option AverageValueMeter.n O)
        JOINT_NAMES "all") in Hc by apply all_not_a_joint.
      unfold joint_count in Hn. simpl in *. lia.
    + unfold joint_sum.
      pose proof (sum_insert JOINT_NAMES name m (AverageValueMeter.add v m)
        (<["all"%string := AverageValueMeter.add v a]> ms) joint_names_nodup Hname) as Hc.
      rewrite lookup_insert_ne in Hc by done. specialize (Hc Hm).
      rewrite (fmap_lookup_insert_other (from_option AverageValueMeter.sum 0)
        JOINT_NAMES "all") in Hc by apply all_not_a_joint.
      unfold joint_sum in Hs. simpl in *. lia.
Qed.

Lemma record_sample_returns (j : nat) (v : Z) (ms ms' : meters) :
  record_sample j v ms = (ms', inr tt) →
  ∃ name, JOINT_NAMES !! j = Some name ∧
          is_Some (ms !! "all"%string) ∧ is_Some (ms !! name) ∧
          ms' = recorded name v ms.
Proof.
  unfold record_sample, joint_name. unfold mbind, Exec_bind, exec_bind.
  rewrite meter_add_eq. destruct (ms !! "all"%string) as [a|] eqn:Ha; [|done].
  destruct (JOINT_NAMES !! j) as [name|] eqn:Hname; [|done].
  unfold mret, Exec_ret, exec_ret. rewrite meter_add_eq.
  pose proof (joint_name_not_all _ _ Hname) as Hne.
  rewrite lookup_insert_ne by done.
  destruct (ms !! name) as [m|] eqn:Hm; [|done].
  intros [= <-]. exists name. split_and!; eauto.
  by rewrite (recorded_insert name v a m).
Qed.

Lemma record_sample_balanced (j : nat) (v : Z) (ms : meters) :
  balanced ms →
  (j < length JOINT_NAMES)%nat ∨ returns (record_sample j v) ms →
  balanced (state_after (record_sample j v) ms).
Proof.
  intros Hbal Hok. unfold state_after.
  assert (∃ name, JOINT_NAMES !! j = Some name) as [name Hname].
  { destruct Hok as [Hj|[[] Hret]].
    - by apply lookup_lt_is_Some_2.
    - destruct (record_sample j v ms) as [ms' r] eqn:Hrun. simpl in Hret. subst r.
      apply record_sample_returns in Hrun as (name & ? & _). by exists name. }
  assert (name ∈ JOINT_NAMES) as Hin by by eapply list_elem_of_lookup_2.
  destruct Hbal as (Hjoints & a & Ha & Hrest).
  rewrite (record_sample_ok j v name); eauto using joint_name_not_all.
  simpl. apply balanced_recorded; [done|]. split; eauto.
Qed.

Lemma add_entry_balanced (x : batch point) (b j : nat) (ms : meters) :
  balanced ms →
  (j < length JOINT_NAMES)%nat ∨ returns (add_entry torch_dist x b j) ms →
  balanced (state_after (add_entry torch_dist x b j) ms).
Proof.
  intros Hbal Hok. unfold state_after, returns in *.
  destruct (add_entry_shape x b j ms) as [[_ ->]|[[e ->]|[_ Heq]]]; [done..|].
  rewrite Heq in *. by apply record_sample_balanced.
Qed.

Lemma add_balanced (x : batch point) (ms : meters) :
  balanced ms →
  (size1 (pred x) ≤ length JOINT_NAMES)%nat ∨ returns (add torch_dist x) ms →
  balanced (state_after (add torch_dist x) ms).
Proof.
  intros Hbal Hok. unfold add in *.
  apply (for_each_inv balanced (λ _, (size1 (pred x) ≤ length JOINT_NAMES)%nat));
    [|done|by destruct Hok; [left|right]].
  intros b ms1 _ Hbal1 Hok1.
  apply (for_each_inv balanced (λ j, (j < length JOINT_NAMES)%nat)); [|done|].
  - intros j ms2 _. apply add_entry_balanced.
  - destruct Hok1 as [Hsize|Hret]; [left|by right].
    intros j Hj%elem_of_range. lia.
Qed.

Lemma foldl_insert_lookup {A} (names : list string) (a : A) (m : gmap string A)
    (name : string) :
  foldl (λ m k, <[k := a]> m) m names !! name =
  if decide (name ∈ names) then Some a else m !! name.
Proof.
  revert m. induction names as [|k names IH]; intros m; cbn [foldl].
  - case_decide; [set_solver|done].
  - rewrite IH, lookup_insert.
    destruct (decide (name ∈ names)), (decide (k = name)), (decide (name ∈ k :: names));
      try done; exfalso; set_solver.
Qed.

Lemma init_lookup (name : string) :
  init !! name =
  if decide (name = "all"%string ∨ name ∈ JOINT_NAMES) then Some AverageValueMeter.init
  else None.
Proof.
  unfold init. rewrite foldl_insert_lookup, lookup_singleton.
  destruct (decide (name ∈ JOINT_NAMES)), (decide ("all"%string = name)),
    (decide (name = "all"%string ∨ name ∈ JOINT_NAMES)); try done; naive_solver.
Qed.

Lemma init_balanced : balanced init.
Proof.
  split.
  - intros name Hname. rewrite init_lookup. case_decide; [eauto|tauto].
  - exists AverageValueMeter.init. split; [|by vm_compute].
    rewrite init_lookup. case_decide; [done|tauto].
Qed.

Lemma add_all_balanced (xs : list (batch point)) (ms : meters) :
  balanced ms → calls_complete torch_dist xs ms →
  balanced (add_all torch_dist xs ms).
Proof.
  revert ms. induction xs as [|x xs IH]; intros ms Hbal Hcalls; [done|].
  destruct Hcalls as [Hx Hrest]. simpl. apply IH; [|done].
  by apply add_balanced.
Qed.

(** C5: a masked entry that [add] gets through puts one and the same
    0/1 sample into ['all'] and into the meter named for its joint; hence,
    after any sequence of [add] calls on a fresh evaluator, ['all'] holds
    as many samples as the sixteen per-joint meters together, with the same
    sum, and its mean is the mean of their combined samples. *)
Theorem aggregate_is_union_of_joints (xs : list (batch point)) :
  (∀ x b j ms ms', masked x b j →
     add_entry torch_dist x b j ms = (ms', inr tt) →
     ∃ name v, JOINT_NAMES !! j = Some name ∧ (v = 0 ∨ v = 1) ∧
               is_Some (ms !! "all"%string) ∧ is_Some (ms !! name) ∧
               ms' = recorded name v ms) ∧
  (calls_complete torch_dist xs init →
   ∃ a, add_all torch_dist xs init !! "all"%string = Some a ∧
        AverageValueMeter.n a = joint_count (add_all torch_dist xs init) ∧
        AverageValueMeter.sum a = joint_sum (add_all torch_dist xs init) ∧
        AverageValueMeter.mean a =
        AverageValueMeter.mean_of (joint_sum (add_all torch_dist xs init))
                                  (joint_count (add_all torch_dist xs init))).
Proof.
  split.
  - intros x b j ms ms' Hmasked Hrun.
    destruct (add_entry_shape x b j ms) as [[Hno _]|[[e He]|[_ Heq]]];
      [done|congruence|].
    rewrite Heq in Hrun.
    apply record_sample_returns in Hrun as (name & Hname & Hall & Hjoint & ->).
    exists name, (thresholded (normalised_dist torch_dist x b j)).
    split_and!; auto using thresholded_bit.
  - intros Hcalls.
    destruct (add_all_balanced xs init init_balanced Hcalls) as (_ & a & Ha & Hn & Hs).
    exists a. split_and!; [done..|].
    unfold AverageValueMeter.mean. by rewrite Hn, Hs.
Qed.

Lemma reset_lookup (ms : meters) (name : string) :
  reset ms !! name = AverageValueMeter.reset <$> ms !! name.
Proof. unfold reset. apply lookup_fmap. Qed.

(** C9: a fresh evaluator holds exactly seventeen meters, one under each
    of the sixteen joint names (distinct, and index [j] of the tensor is
    recorded under the name at position [j]) and one under ['all'];
    [reset] resets each meter of the evaluator, which brings all seventeen
    back to their fresh state. *)
Theorem seventeen_meters_and_reset :
  size init = 17%nat ∧
  length JOINT_NAMES = 16%nat ∧ NoDup JOINT_NAMES ∧ ("all"%string ∉ JOINT_NAMES) ∧
  (∀ name, init !! name =
           if decide (name = "all"%string ∨ name ∈ JOINT_NAMES)
           then Some AverageValueMeter.init else None) ∧
  (∀ j, (j < 16)%nat →
        ∃ name, JOINT_NAMES !! j = Some name ∧
                ∀ v ms, is_Some (ms !! "all"%string) → is_Some (ms !! name) →
                        record_sample j v ms = (recorded name v ms, inr tt)) ∧
  (∀ ms name m, ms !! name = Some m →
                (reset ms !! name = Some (AverageValueMeter.reset m)) ∧
                (AverageValueMeter.reset m = AverageValueMeter.init)) ∧
  (∀ ms, dom (reset ms) = dom ms) ∧
  (∀ ms, dom ms = dom init → reset ms = init).
Proof.
  split_and!.
  - by vm_compute.
  - done.
  - apply joint_names_nodup.
  - apply all_not_a_joint.
  - apply init_lookup.
  - intros j Hj. destruct (lookup_lt_is_Some_2 JOINT_NAMES j Hj) as [name Hname].
    exists name. split; [done|]. intros v ms Hall Hjoint.
    apply record_sample_ok; eauto using joint_name_not_all.
  - intros ms name m Hm. by rewrite reset_lookup, Hm.
  - intros ms. unfold reset. apply dom_fmap_L.
  - intros ms Hdom. apply map_eq. intros name. rewrite reset_lookup.
    assert (is_Some (ms !! name) ↔ is_Some (init !! name)) as Hiff
      by by rewrite <- !elem_of_dom, Hdom.
    rewrite init_lookup in *. case_decide.
    + destruct (ms !! name); [done|]. by apply proj2, is_Some_None in Hiff.
    + destruct (ms !! name); [|done]. by apply proj1, is_Some_None in Hiff.
Qed.

End PCKhFacts.

(** ** The file system calls *)

Lemma isfile_eq (path : string) (w : world) :
  isfile path w =
  (World (files w) (trace w ++ [IsFile path]),
   inr (match files w !! path with Some (File _) => true | _ => false end)).
Proof. reflexivity. Qed.

Lemma json_load_eq (path : string) (w : world) :
  json_load path w =
  (World (files w) (trace w ++ [OpenRead path]),
   match files w !! path with
   | Some (File (Doc j)) => inr j
   | Some (File (Raw _)) => inl ValueError
   | Some Dir => inl IsADirectoryError
   | None => inl FileNotFoundError
   end).
Proof.
  unfold json_load, log. exec_unfold. simpl.
  by destruct (files w !! path) as [[|[]]|].
Qed.

Lemma open_w_eq (path : string) (w : world) :
  open_w path w =
  match files w !! path with
  | Some Dir => (World (files w) (trace w ++ [OpenWrite path]), inl IsADirectoryError)
  | _ => (World (<[path := File (Raw EmptyString)]> (files w))
                (trace w ++ [OpenWrite path]), inr tt)
  end.
Proof.
  unfold open_w, log, set_file. exec_unfold. simpl.
  by destruct (files w !! path) as [[|]|].
Qed.

Lemma json_dump_eq (path : string) (j : json) (w : world) :
  json_dump path j w =
  (World (<[path := File (Doc j)]> (files w)) (trace w ++ [Dump path j]), inr tt).
Proof. reflexivity. Qed.

Lemma makedirs_eq (path : string) (w : world) :
  makedirs path w =
  match files w !! path with
  | Some _ => (World (files w) (trace w ++ [MakeDirs path]), inl FileExistsError)
  | None => (World (<[path := Dir]> (files w)) (trace w ++ [MakeDirs path]), inr tt)
  end.
Proof.
  unfold makedirs, log, set_file. exec_unfold. simpl.
  by destruct (files w !! path).
Qed.

(** Opening for writing and dumping, one after the other. *)
Lemma write_back_eq (path : string) (j : json) (w : world) :
  (open_w path;; json_dump path j) w =
  match files w !! path with
  | Some Dir => (World (files w) (trace w ++ [OpenWrite path]), inl IsADirectoryError)
  | _ => (World (<[path := File (Doc j)]> (files w))
                (trace w ++ [OpenWrite path; Dump path j]), inr tt)
  end.
Proof.
  unfold mbind, Exec_bind, exec_bind. rewrite open_w_eq.
  destruct (files w !! path) as [[|c]|]; [done| |];
    rewrite json_dump_eq; simpl; by rewrite insert_insert_eq, <- app_assoc.
Qed.

Lemma replay_app (evs1 evs2 : list event) (fs : gmap string node) :
  replay (evs1 ++ evs2) fs = replay evs2 (replay evs1 fs).
Proof. apply foldl_app. Qed.

Lemma replay_value_calls {M} (meters : list (string * M)) (fs : gmap string node) :
  replay (value_calls meters) fs = fs.
Proof. induction meters as [|[name meter] meters IH]; [done|]. apply IH. Qed.

Lemma existsb_value_calls {M} (f : event → bool) (meters : list (string * M)) :
  (∀ name, f (MeterCall name OpValue) = false) →
  existsb f (value_calls meters) = false.
Proof.
  intros Hf. induction meters as [|[name meter] meters IH]; [done|].
  simpl. by rewrite Hf, IH.
Qed.

Lemma meter_calls_app (evs1 evs2 : list event) :
  meter_calls (evs1 ++ evs2) = meter_calls evs1 ++ meter_calls evs2.
Proof. apply List.filter_app. Qed.

Lemma meter_calls_value_calls {M} (meters : list (string * M)) :
  meter_calls (value_calls meters) = value_calls meters.
Proof.
  induction meters as [|[name meter] meters IH]; [done|].
  simpl. by rewrite IH.
Qed.

(** ** Formatting the step number *)









(** ** The views *)

Section FolderFacts.
Context `{Meter M}.

Lemma lift_eq {S A} (r : exn + A) (s : S) : lift r s = (s, r).
Proof. reflexivity. Qed.

Lemma bind_lift {S A B} (r : exn + A) (f : A → Exec S B) (s : S) :
  (lift r ≫= f) s =
  match r with
  | inr a => f a s
  | inl e => (s, inl e)
  end.
Proof. reflexivity. Qed.

Lemma supplied_cons (k name : string) (meter : M) (meters : list (string * M)) :
  GrowingJSONCell.supplied k ((name, meter) :: meters) =
  (if decide (name = k) then [value meter] else []) ++ GrowingJSONCell.supplied k meters.
Proof. unfold GrowingJSONCell.supplied. simpl. by case_decide. Qed.

Lemma supplied_absent (k : string) (meters : list (string * M)) :
  k ∉ meters.*1 → GrowingJSONCell.supplied k meters = [].
Proof.
  induction meters as [|[name meter] meters IH]; [done|].
  intros Hk. rewrite supplied_cons. rewrite fmap_cons in Hk.
  apply not_elem_of_cons in Hk as [Hne Hk]. simpl in Hne.
  rewrite IH by done. by case_decide.
Qed.


(** One round of the loop on a mapping. *)
Lemma record_eq (m : gmap string json) (name : string) (meter : M) (w : world) :
  GrowingJSONCell.record (JObj m) (name, meter) w =
  match m !! name with
  | Some (JArr l) =>
      (World (files w) (trace w ++ [MeterCall name OpValue]),
       inr (JObj (<[name := JArr (l ++ [value meter])]> m)))
  | Some _ => (w, inl AttributeError)
  | None =>
      (World (files w) (trace w ++ [MeterCall name OpValue]),
       inr (JObj (<[name := JArr [value meter]]> m)))
  end.
Proof.
  unfold GrowingJSONCell.record, py_contains, py_setitem, py_getitem,
    py_append_method, call_value, log.
  exec_unfold. destruct (m !! name) as [v|] eqn:Hm.
  - rewrite bool_decide_eq_true_2 by eauto. rewrite Hm. by destruct v.
  - rewrite bool_decide_eq_false_2 by (by intros [? ?]).
    rewrite lookup_insert_eq. simpl. by rewrite insert_insert_eq.
Qed.

Lemma record_not_object (v : json) (item : string * M) (w : world) :
  (∀ m, v ≠ JObj m) → GrowingJSONCell.record v item w = (w, inl TypeError).
Proof.
  intros Hv. destruct item as [name meter].
  unfold GrowingJSONCell.record, py_contains. exec_unfold.
  destruct v; try done. by destruct (Hv m).
Qed.

Lemma sequence_of_insert (m : gmap string json) (k name : string) (l : list json) :
  sequence_of (<[name := JArr l]> m) k =
  if decide (name = k) then l else sequence_of m k.
Proof.
  unfold sequence_of. rewrite lookup_insert. by case_decide.
Qed.

(** The loop over the meters, on a mapping: each key handed in gets its
    values appended, every other key stays. *)
Lemma grow_loop (meters : list (string * M)) (m : gmap string json) (w w' : world)
    (r : json) :
  for_fold meters (JObj m) GrowingJSONCell.record w = (w', inr r) →
  ∃ m', r = JObj m' ∧
        files w' = files w ∧
        trace w' = trace w ++ value_calls meters ∧
        ∀ k, m' !! k =
             if decide (k ∈ meters.*1)
             then Some (JArr (sequence_of m k ++ GrowingJSONCell.supplied k meters))
             else m !! k.
Proof.
  revert m w. induction meters as [|[name meter] meters IH]; intros m w.
  - intros [= <- <-]. exists m. split_and!; [done|done|by rewrite app_nil_r|].
    intros k. case_decide as Hk; [by apply elem_of_nil in Hk|done].
  - cbn [for_fold]. unfold mbind, Exec_bind, exec_bind. rewrite record_eq.
    set (w1 := World (files w) (trace w ++ [MeterCall name OpValue])).
    assert (∀ l, (m !! name = None ∧ l = [] ∨ m !! name = Some (JArr l)) →
      for_fold meters (JObj (<[name := JArr (l ++ [value meter])]> m))
        GrowingJSONCell.record w1 = (w', inr r) →
      ∃ m', r = JObj m' ∧ files w' = files w ∧
        trace w' = trace w ++ value_calls ((name, meter) :: meters) ∧
        ∀ k, m' !! k =
             if decide (k ∈ ((name, meter) :: meters).*1)
             then Some (JArr (sequence_of m k ++
                              GrowingJSONCell.supplied k ((name, meter) :: meters)))
             else m !! k) as Hstep.
    { intros l Hl Hrun. apply IH in Hrun as (m' & -> & Hfiles & Htrace & Hm').
      exists m'. split_and!; [done|done| |].
      - rewrite Htrace. subst w1. simpl. by rewrite <- app_assoc.
      - intros k. rewrite Hm', sequence_of_insert, supplied_cons, lookup_insert.
        rewrite fmap_cons. simpl.
        assert (sequence_of m name = l) as Hseq.
        { unfold sequence_of. by destruct Hl as [[-> ->]| ->]. }
        destruct (decide (name = k)) as [->|Hne].
        + rewrite (decide_True (P := k ∈ k :: meters.*1)) by left.
          destruct (decide (k ∈ meters.*1)) as [Hk|Hk].
          * by rewrite Hseq, <- app_assoc.
          * by rewrite Hseq, supplied_absent.
        + destruct (decide (k ∈ meters.*1)) as [Hk|Hk].
          * by rewrite decide_True by by right.
          * rewrite decide_False; [done|].
            intros [?|?]%elem_of_cons; [congruence|done]. }
    destruct (m !! name) as [[| | | | |l|]|] eqn:Hm; try done.
    + apply Hstep. by right.
    + apply (Hstep []). by left.
Qed.

Lemma grow_loop_not_object (meters : list (string * M)) (v : json) (w w' : world)
    (r : json) :
  (∀ m, v ≠ JObj m) →
  for_fold meters v GrowingJSONCell.record w = (w', inr r) →
  meters = [].
Proof.
  intros Hv. destruct meters as [|item meters]; [done|].
  cbn [for_fold]. unfold mbind, Exec_bind, exec_bind.
  by rewrite record_not_object.
Qed.

Lemma loop_effects (meters : list (string * M)) (before after : json) (w w' : world) :
  for_fold meters before GrowingJSONCell.record w = (w', inr after) →
  files w' = files w ∧ trace w' = trace w ++ value_calls meters ∧
  GrowingJSONCell.appended meters before after.
Proof.
  intros Hrun.
  destruct before as [| | | | | |m];
    [assert (meters = []) as ->
       by (eapply grow_loop_not_object; [|exact Hrun]; done);
     injection Hrun as <- <-;
     split_and!; [done|by rewrite app_nil_r|done]..|].
  apply grow_loop in Hrun as (m' & -> & ? & ? & ?). split_and!; [done..|].
  by exists m'.
Qed.

(** The loop and the write-back that follows it. *)
Lemma growing_tail (path : string) (meters : list (string * M)) (before : json)
    (w w' : world) :
  (for_fold meters before GrowingJSONCell.record ≫= λ values,
     open_w path;; json_dump path values) w = (w', inr tt) →
  ∃ after,
    GrowingJSONCell.appended meters before after ∧
    files w !! path ≠ Some Dir ∧
    files w' = <[path := File (Doc after)]> (files w) ∧
    trace w' = trace w ++ value_calls meters ++ [OpenWrite path; Dump path after].
Proof.
  unfold mbind at 1, Exec_bind, exec_bind.
  destruct (for_fold _ _ _ w) as [w3 [e|after]] eqn:Hloop; [done|].
  apply loop_effects in Hloop as (Hfiles3 & Htrace3 & Happ).
  rewrite write_back_eq, Hfiles3. intros Hwrite. exists after.
  destruct (files w !! path) as [[|c]|] eqn:Hpath; [done| |];
    injection Hwrite as <-; simpl; rewrite Htrace3, <- !app_assoc; by split_and!.
Qed.

(** A render of the growing view that returned: what it read, what it
    made of it and what it left behind. *)
Lemma growing_render_returns (self : FolderCell.t) (step_num : nat)
    (meters : list (string * M)) (w w' : world) :
  GrowingJSONCell.render self step_num meters w = (w', inr tt) →
  ∃ path before after reads,
    FolderCell.build_path self step_num = inr path ∧
    (files w !! path = Some (File (Doc before)) ∧ reads = [IsFile path; OpenRead path] ∨
     files w !! path = None ∧ before = JObj ∅ ∧ reads = [IsFile path]) ∧
    GrowingJSONCell.appended meters before after ∧
    files w' = <[path := File (Doc after)]> (files w) ∧
    trace w' = trace w ++ reads ++ value_calls meters ++ [OpenWrite path; Dump path after].
Proof.
  unfold GrowingJSONCell.render. rewrite bind_lift.
  destruct (FolderCell.build_path self step_num) as [e|path]; [done|].
  unfold mbind at 1, Exec_bind, exec_bind. rewrite isfile_eq.
  destruct (files w !! path) as [[|c]|] eqn:Hpath.
  - unfold mbind at 1, Exec_bind, exec_bind. unfold mret at 1, Exec_ret, exec_ret.
    intros (after & _ & Hnodir & _)%growing_tail. by destruct Hnodir.
  - unfold mbind at 1, Exec_bind, exec_bind. rewrite json_load_eq. simpl.
    rewrite Hpath. destruct c as [before|text]; [|done].
    intros (after & Happ & _ & Hfiles & Htrace)%growing_tail. simpl in *.
    exists path, before, after, [IsFile path; OpenRead path].
    split_and!; [done|by left|done..|].
    by rewrite Htrace, <- !app_assoc.
  - unfold mbind at 1, Exec_bind, exec_bind. unfold mret at 1, Exec_ret, exec_ret.
    intros (after & Happ & _ & Hfiles & Htrace)%growing_tail. simpl in *.
    exists path, (JObj ∅), after, [IsFile path].
    split_and!; [done|by right|done..|].
    by rewrite Htrace, <- !app_assoc.
Qed.

(** C10: a key of the mapping on disk that is not among the meters handed
    to a render keeps its entry as it was in the rewritten file (and a key
    absent from both stays absent); only the sequences of the meters
    handed in grow. *)
Theorem other_keys_are_kept (self : FolderCell.t) (step_num : nat)
    (meters : list (string * M)) (w w' : world) (path : string)
    (m : gmap string json) (k : string) :
  GrowingJSONCell.render self step_num meters w = (w', inr tt) →
  FolderCell.build_path self step_num = inr path →
  files w !! path = Some (File (Doc (JObj m))) →
  k ∉ meters.*1 →
  ∃ m', files w' !! path = Some (File (Doc (JObj m'))) ∧
        m' !! k = m !! k ∧
        ∀ name, name ∈ meters.*1 →
                m' !! name =
                Some (JArr (sequence_of m name ++ GrowingJSONCell.supplied name meters)).
Proof.
  intros Hrun Hpath Hfile Hk.
  apply growing_render_returns in Hrun
    as (path' & before & after & reads & Hpath' & Hread & Happ & Hfiles & _).
  assert (path' = path) as -> by congruence.
  destruct Hread as [[Hbefore _]|[Hnone _]]; [|congruence].
  assert (before = JObj m) as -> by congruence.
  destruct Happ as (m' & -> & Hm'). exists m'. split_and!.
  - by rewrite Hfiles, lookup_insert_eq.
  - by rewrite Hm', decide_False.
  - intros name Hname. by rewrite Hm', decide_True.
Qed.

Lemma persisted_default (fs : gmap string node) (path k : string)
    (m : gmap string json) :
  fs !! path = Some (File (Doc (JObj m))) →
  (m !! k = None ∨ ∃ l, m !! k = Some (JArr l)) →
  default [] (persisted fs path k) = sequence_of m k.
Proof.
  intros Hfs Hk. unfold persisted, sequence_of. rewrite Hfs.
  by destruct Hk as [->|[l ->]].
Qed.




(** C2, as the code has it: a render of the growing view that returns has
    made these calls and no other: the test for the file, the read of it
    when it was there, [value()] on each meter, then [open] of the target
    path itself for writing and the [dump] of the whole mapping into it.
    No other path is written and nothing is renamed; had the process died
    between the last two calls, the target would have been left empty. *)
Theorem growing_view_overwrites_in_place (self : FolderCell.t) (step_num : nat)
    (meters : list (string * M)) (w w' : world) :
  GrowingJSONCell.render self step_num meters w = (w', inr tt) →
  ∃ path values,
    let reads :=
      match files w !! path with
      | Some _ => [IsFile path; OpenRead path]
      | None => [IsFile path]
      end ++ value_calls meters in
    FolderCell.build_path self step_num = inr path ∧
    trace w' = trace w ++ reads ++ [OpenWrite path; Dump path values] ∧
    files w' = <[path := File (Doc values)]> (files w) ∧
    replay reads (files w) = files w ∧
    replay (reads ++ [OpenWrite path]) (files w) !! path = Some (File (Raw EmptyString)) ∧
    replay (reads ++ [OpenWrite path; Dump path values]) (files w) = files w' ∧
    atomic_overwrite (reads ++ [OpenWrite path; Dump path values]) path = false.
Proof.
  intros Hrun.
  apply growing_render_returns in Hrun
    as (path & before & values & reads0 & Hpath & Hread & _ & Hfiles & Htrace).
  exists path, values. cbv zeta.
  assert (files w !! path ≠ Some Dir) as Hnodir
    by (destruct Hread as [[-> _]|[-> _]]; done).
  assert (match files w !! path with
          | Some _ => [IsFile path; OpenRead path]
          | None => [IsFile path]
          end = reads0) as ->
    by (by destruct Hread as [[-> ->]|(-> & _ & ->)]).
  assert (replay (reads0 ++ value_calls meters) (files w) = files w) as Hreads.
  { rewrite replay_app, replay_value_calls.
    by destruct Hread as [[_ ->]|(_ & _ & ->)]. }
  assert (apply_event (OpenWrite path) (files w)
          = <[path := File (Raw EmptyString)]> (files w)) as Hopen.
  { simpl. by destruct (files w !! path) as [[|]|]. }
  split_and!; [done|by rewrite Htrace, <- app_assoc|done|done|..].
  - rewrite replay_app, Hreads. unfold replay. cbn [foldl].
    by rewrite Hopen, lookup_insert_eq.
  - rewrite replay_app, Hreads. unfold replay. cbn [foldl].
    rewrite Hopen. cbn [apply_event]. by rewrite insert_insert_eq.
  - unfold atomic_overwrite. apply andb_false_iff. right.
    rewrite existsb_app. simpl. rewrite bool_decide_eq_true_2 by done.
    by rewrite orb_true_r.
Qed.

(** The loop of the snapshot view. *)
Lemma snapshot_loop (meters : list (string * M)) (acc : gmap string json) (w : world) :
  for_fold meters acc JSONCell.collect w =
  (World (files w) (trace w ++ value_calls meters),
   inr (foldl (λ acc item, <[item.1 := value item.2]> acc) acc meters)).
Proof.
  revert acc w. induction meters as [|[name meter] meters IH]; intros acc w.
  - simpl. unfold mret, Exec_ret, exec_ret. destruct w. by rewrite app_nil_r.
  - cbn [for_fold]. unfold mbind, Exec_bind, exec_bind.
    unfold JSONCell.collect at 1, call_value, log. exec_unfold.
    rewrite IH. simpl. by rewrite <- app_assoc.
Qed.


Lemma snapshot_render_eq (self : FolderCell.t) (step_num : nat)
    (meters : list (string * M)) (w : world) :
  JSONCell.render self step_num meters w =
  match FolderCell.build_path self step_num with
  | inl e => (w, inl e)
  | inr path =>
      (open_w path;;
       json_dump path
         (JObj (foldl (λ acc item, <[item.1 := value item.2]> acc) ∅ meters)))
        (World (files w) (trace w ++ value_calls meters))
  end.
Proof.
  unfold JSONCell.render. rewrite bind_lift.
  destruct (FolderCell.build_path self step_num) as [e|path]; [done|].
  unfold mbind at 1, Exec_bind, exec_bind. by rewrite snapshot_loop.
Qed.





End FolderFacts.

(** ** [FolderOutput] *)

Section PrepareFacts.
Variable super_prepare : FolderOutput.t → list string → option exn.


End PrepareFacts.

(** * The properties on concrete inputs *)

Section Runs.
Import Examples.

(** The scenario of the specification: two samples of one joint at
    distances 4 and 6 for a head length of 10 give the hits 1 and 0. *)
Example rwrist_half :
  let ms := PCKhEvaluator.add_all line_dist [one_sample 4; one_sample 6]
              PCKhEvaluator.init in
  ms !! "rwrist"%string = Some (AverageValueMeter.mk 2 1 1) ∧
  ms !! "all"%string = Some (AverageValueMeter.mk 2 1 1) ∧
  ms !! "lwrist"%string = Some AverageValueMeter.init.
Proof. by vm_compute. Qed.

(** A seventeenth annotated joint has no name: [add] raises on it, after
    the sample went into ['all'], which then counts one sample more than
    the joint meters together. *)
Example seventeenth_joint_raises :
  (PCKhEvaluator.add line_dist seventeen_joints PCKhEvaluator.init).2 = inl IndexError ∧
  AverageValueMeter.n <$>
    (PCKhEvaluator.add line_dist seventeen_joints PCKhEvaluator.init).1 !! "all"%string
  = Some 17%nat ∧
  PCKhEvaluator.joint_count
    (PCKhEvaluator.add line_dist seventeen_joints PCKhEvaluator.init).1 = 16%nat.
Proof. by vm_compute. Qed.

(** C3 on a joint that is not annotated and on a batch without any
    annotation. *)
Lemma unmasked_entries_skipped_witness :
  PCKhEvaluator.add_entry line_dist (one_sample 5) 0 3 PCKhEvaluator.init
    = (PCKhEvaluator.init, inr tt) ∧
  PCKhEvaluator.add line_dist nothing_annotated PCKhEvaluator.init
    = (PCKhEvaluator.init, inr tt).
Proof.
  split.
  - apply (unmasked_entries_skipped line_dist (one_sample 5) PCKhEvaluator.init).
    unfold PCKhEvaluator.unmasked. simpl. lia.
  - apply (unmasked_entries_skipped line_dist nothing_annotated PCKhEvaluator.init).
    intros b j Hb Hj. unfold PCKhEvaluator.unmasked. simpl in *. lia.
Defined.


(** C5 on three batches, one of them without annotation. *)
Lemma aggregate_is_union_of_joints_witness :
  (∃ name v, PCKhEvaluator.JOINT_NAMES !! 10%nat = Some name ∧ (v = 0 ∨ v = 1) ∧
             is_Some (PCKhEvaluator.init !! "all"%string) ∧
             is_Some (PCKhEvaluator.init !! name) ∧
             PCKhEvaluator.recorded "rwrist" 1 PCKhEvaluator.init
             = PCKhEvaluator.recorded name v PCKhEvaluator.init) ∧
  (∃ a, PCKhEvaluator.add_all line_dist [one_sample 4; nothing_annotated; one_sample 6]
          PCKhEvaluator.init !! "all"%string = Some a ∧
        AverageValueMeter.n a = 2%nat ∧ AverageValueMeter.sum a = 1 ∧
        AverageValueMeter.mean a = Some (1 # 2)%Q).
Proof.
  destruct (aggregate_is_union_of_joints line_dist
              [one_sample 4; nothing_annotated; one_sample 6]) as [Hentry Hcalls].
  split.
  - apply (Hentry (one_sample 5) 0%nat 10%nat PCKhEvaluator.init).
    + unfold PCKhEvaluator.masked. simpl. lia.
    + by vm_compute.
  - destruct Hcalls as (a & Ha & Hn & Hs & Hmean).
    + simpl. repeat split; left; lia.
    + exists a. split_and!; [done|by rewrite Hn|by rewrite Hs|by rewrite Hmean].
Defined.


(** The same run, evaluated: the restart between the two steps leaves no
    trace in the log. *)
Example two_steps_log :
  persisted (files (GrowingJSONCell.run GrowingJSONCell.default_template "out"
                      two_steps empty_world).1) log_path "loss"
  = Some [JInt 3; JInt 2].
Proof. by vm_compute. Qed.

(** C2 does not hold of the code: a render on a log that holds one step
    returns without any rename, after opening the log itself for writing;
    replaying its calls up to that [open] leaves the log empty, the
    recorded step gone. *)
Lemma growing_view_is_not_atomic :
  (GrowingJSONCell.render growing_cell 1 [loss 2; epoch 1] logged_world).2 = inr tt ∧
  trace (GrowingJSONCell.render growing_cell 1 [loss 2; epoch 1] logged_world).1
  = [IsFile log_path; OpenRead log_path;
     MeterCall "loss" OpValue; MeterCall "epoch" OpValue;
     OpenWrite log_path;
     Dump log_path (JObj (<["epoch"%string := JArr [JInt 0; JInt 1]]>
                          (<["loss"%string := JArr [JInt 7; JInt 2]]> ∅)))] ∧
  atomic_overwrite
    (trace (GrowingJSONCell.render growing_cell 1 [loss 2; epoch 1] logged_world).1)
    log_path = false ∧
  persisted (files logged_world) log_path "loss" = Some [JInt 7] ∧
  replay [IsFile log_path; OpenRead log_path;
          MeterCall "loss" OpValue; MeterCall "epoch" OpValue;
          OpenWrite log_path] (files logged_world) !! log_path
  = Some (File (Raw EmptyString)).
Proof. by vm_compute. Qed.

(** C2, as the code has it, on the same render. *)
Lemma growing_view_overwrites_in_place_witness :
  ∃ path values,
    let reads :=
      match files logged_world !! path with
      | Some _ => [IsFile path; OpenRead path]
      | None => [IsFile path]
      end ++ value_calls [loss 2; epoch 1] in
    FolderCell.build_path growing_cell 1 = inr path ∧
    trace (GrowingJSONCell.render growing_cell 1 [loss 2; epoch 1] logged_world).1
    = trace logged_world ++ reads ++ [OpenWrite path; Dump path values] ∧
    files (GrowingJSONCell.render growing_cell 1 [loss 2; epoch 1] logged_world).1
    = <[path := File (Doc values)]> (files logged_world) ∧
    replay reads (files logged_world) = files logged_world ∧
    replay (reads ++ [OpenWrite path]) (files logged_world) !! path
    = Some (File (Raw EmptyString)) ∧
    replay (reads ++ [OpenWrite path; Dump path values]) (files logged_world)
    = files (GrowingJSONCell.render growing_cell 1 [loss 2; epoch 1] logged_world).1 ∧
    atomic_overwrite (reads ++ [OpenWrite path; Dump path values]) path = false.
Proof.
  apply (growing_view_overwrites_in_place growing_cell 1 [loss 2; epoch 1] logged_world).
  by vm_compute.
Defined.





(** C10 on a render that is handed the loss only: the epochs stay. *)
Lemma other_keys_are_kept_witness :
  ∃ m', files (GrowingJSONCell.render growing_cell 1 [loss 2] logged_world).1 !! log_path
        = Some (File (Doc (JObj m'))) ∧
        m' !! "epoch"%string = Some (JArr [JInt 0]) ∧
        ∀ name, name ∈ [loss 2].*1 →
                m' !! name =
                Some (JArr (sequence_of (<["epoch"%string := JArr [JInt 0]]>
                                           (<["loss"%string := JArr [JInt 7]]> ∅)) name
                            ++ GrowingJSONCell.supplied name [loss 2])).
Proof.
  destruct (other_keys_are_kept growing_cell 1 [loss 2] logged_world
              (GrowingJSONCell.render growing_cell 1 [loss 2] logged_world).1
              log_path
              (<["epoch"%string := JArr [JInt 0]]> (<["loss"%string := JArr [JInt 7]]> ∅))
              "epoch") as (m' & Hfile & Hkept & Hgrown).
  - by vm_compute.
  - reflexivity.
  - by vm_compute.
  - set_solver.
  - exists m'. split_and!; [done| |done]. by rewrite Hkept.
Defined.


End Runs.

(** * More of the evaluator *)

Lemma for_each_returns_each {S A} (xs : list A) (body : A → Exec S unit) (s : S) :
  returns (for_each xs body) s → ∀ x, x ∈ xs → ∃ s', returns (body x) s'.
Proof.
  revert s. induction xs as [|y xs IH]; intros s Hret x Hx;
    [by apply elem_of_nil in Hx|].
  unfold returns in Hret. rewrite for_each_cons in Hret.
  destruct (body y s) as [s1 [e|[]]] eqn:Hrun; [by destruct Hret|].
  apply elem_of_cons in Hx as [->|Hx].
  - exists s. unfold returns. rewrite Hrun. by eexists.
  - by apply (IH s1).
Qed.

(** A loop returns when every round returns on every state that keeps an
    invariant, and then keeps the invariant. *)
Lemma for_each_returns {S A} (I : S → Prop) (xs : list A) (body : A → Exec S unit)
    (s : S) :
  (∀ x s, x ∈ xs → I s → returns (body x) s ∧ I (state_after (body x) s)) →
  I s →
  returns (for_each xs body) s ∧ I (state_after (for_each xs body) s).
Proof.
  revert s. induction xs as [|y xs IH]; intros s Hbody Hs.
  - split; [by exists tt|done].
  - unfold returns, state_after in *. rewrite for_each_cons.
    destruct (Hbody y s ltac:(left) Hs) as [[[] Hret] Hinv].
    destruct (body y s) as [s1 r] eqn:Hrun. simpl in *. subst r.
    apply IH; [|done]. intros x t Hx. apply Hbody. by right.
Qed.

Section TallyFacts.
Import PCKhEvaluator PCKhTally.
Context {point : Type} (torch_dist : point → point → float).

(** ** Invariants of the meters that [add] keeps, raising or not *)

Lemma record_sample_keeps (I : meters → Prop) (j : nat) (v : Z) (ms : meters) :
  (∀ name s, I s → I (state_after (meter_add name v) s)) →
  I ms → I (state_after (record_sample j v) ms).
Proof.
  intros Hadd Hms. unfold state_after, record_sample in *.
  unfold mbind, Exec_bind, exec_bind.
  specialize (Hadd "all"%string ms Hms) as Hall.
  destruct (meter_add "all" v ms) as [ms1 [e|[]]]; [done|]. simpl in Hall.
  unfold joint_name. destruct (JOINT_NAMES !! j) as [name|]; [|done].
  unfold mret, Exec_ret, exec_ret.
  specialize (Hadd name ms1 Hall).
  by destruct (meter_add name v ms1) as [ms2 [e|[]]].
Qed.

Lemma add_keeps (I : meters → Prop) (x : batch point) (ms : meters) :
  (∀ name v s, v = 0 ∨ v = 1 → I s → I (state_after (meter_add name v) s)) →
  I ms → I (state_after (add torch_dist x) ms).
Proof.
  intros Hadd Hms. unfold add.
  apply (for_each_inv I (λ _, True)); [|done|by left].
  intros b ms1 _ Hms1 _.
  apply (for_each_inv I (λ _, True)); [|done|by left].
  intros j ms2 _ Hms2 _. unfold state_after.
  destruct (add_entry_shape torch_dist x b j ms2) as [[_ ->]|[[e ->]|[_ ->]]];
    [done..|].
  apply (record_sample_keeps I j _ ms2); [|done].
  intros name s. apply Hadd, thresholded_bit.
Qed.

Lemma add_all_keeps (I : meters → Prop) (xs : list (batch point)) (ms : meters) :
  (∀ name v s, v = 0 ∨ v = 1 → I s → I (state_after (meter_add name v) s)) →
  I ms → I (add_all torch_dist xs ms).
Proof.
  intros Hadd. revert ms. induction xs as [|x xs IH]; intros ms Hms; [done|].
  simpl. apply IH. by apply add_keeps.
Qed.

Lemma meter_add_dom (name : string) (v : Z) (ms : meters) :
  dom (state_after (meter_add name v) ms) = dom ms.
Proof.
  unfold state_after. rewrite meter_add_eq.
  destruct (ms !! name) as [m|] eqn:Hm; [|done].
  simpl. apply dom_insert_lookup_L. by eexists.
Qed.

(** X1: [add] neither adds nor removes a meter: the evaluator has the same
    meter names after the call as before, whether the call returns or
    raises part-way through the batch. *)
Theorem add_keeps_meter_names (x : batch point) (ms : meters) :
  dom (state_after (add torch_dist x) ms) = dom ms.
Proof.
  apply (add_keeps (λ s, dom s = dom ms)); [|done].
  intros name v s _ Hs. by rewrite meter_add_dom.
Qed.

Lemma add_all_dom (xs : list (batch point)) (ms : meters) :
  dom (add_all torch_dist xs ms) = dom ms.
Proof.
  apply (add_all_keeps (λ s, dom s = dom ms)); [|done].
  intros name v s _ Hs. by rewrite meter_add_dom.
Qed.

(** X2: whatever batches a fresh evaluator was given, and whether or not
    some call raised, [reset] brings it back to its fresh state. *)
Theorem reset_undoes_every_add (xs : list (batch point)) :
  reset (add_all torch_dist xs init) = init.
Proof.
  apply map_eq. intros name. rewrite reset_lookup.
  assert (is_Some (add_all torch_dist xs init !! name) ↔ is_Some (init !! name))
    as Hiff by by rewrite <- !elem_of_dom, add_all_dom.
  rewrite init_lookup in *. case_decide.
  - destruct (add_all torch_dist xs init !! name); [done|].
    by apply proj2, is_Some_None in Hiff.
  - destruct (add_all torch_dist xs init !! name); [|done].
    by apply proj1, is_Some_None in Hiff.
Qed.

Lemma meter_add_counts_hits (name : string) (v : Z) (ms : meters) :
  v = 0 ∨ v = 1 →
  (∀ k m, ms !! k = Some m → counts_hits m) →
  ∀ k m, state_after (meter_add name v) ms !! k = Some m → counts_hits m.
Proof.
  intros Hv Hms k m. unfold state_after. rewrite meter_add_eq.
  destruct (ms !! name) as [a|] eqn:Ha; simpl; [|apply Hms].
  rewrite lookup_insert. case_decide; [|apply Hms].
  intros [= <-]. destruct (Hms name a Ha) as [Hsum Hvar].
  unfold counts_hits, AverageValueMeter.add. simpl.
  destruct Hv as [-> | ->]; lia.
Qed.

(** X3: every meter of an evaluator that started fresh counts hits among
    its samples: its sum lies between 0 and its sample count, its sum of
    squares equals its sum, and its mean, when it has one, lies between 0
    and 1. *)
Theorem hit_rates_stay_in_unit_range (xs : list (batch point)) (name : string)
    (m : AverageValueMeter.t) :
  add_all torch_dist xs init !! name = Some m →
  0 ≤ AverageValueMeter.sum m ≤ Z.of_nat (AverageValueMeter.n m) ∧
  AverageValueMeter.var m = AverageValueMeter.sum m ∧
  ∀ q, AverageValueMeter.mean m = Some q → (0 <= q <= 1)%Q.
Proof.
  intros Hm.
  assert (counts_hits m) as [Hsum Hvar].
  { revert name m Hm.
    apply (add_all_keeps (λ s, ∀ k m, s !! k = Some m → counts_hits m)).
    - intros name v s Hv Hs. by apply meter_add_counts_hits.
    - intros k m. rewrite init_lookup. case_decide; [|done].
      intros [= <-]. by vm_compute. }
  split_and!; [lia..|done|].
  unfold AverageValueMeter.mean, AverageValueMeter.mean_of.
  destruct (AverageValueMeter.n m) as [|k] eqn:Hn; [done|].
  intros q [= <-]. unfold Qle. simpl. lia.
Qed.

(** ** When [add] returns *)

Lemma meter_add_has_all (name : string) (v : Z) (ms : meters) :
  has_all_meters ms → has_all_meters (state_after (meter_add name v) ms).
Proof.
  intros Hms k Hk. unfold state_after. rewrite meter_add_eq.
  destruct (ms !! name) as [a|]; simpl; [|by apply Hms].
  rewrite lookup_insert. case_decide; [done|by apply Hms].
Qed.

Lemma add_entry_returns (x : batch point) (b j : nat) (ms : meters) :
  has_all_meters ms → entry_ok x b j →
  returns (add_entry torch_dist x b j) ms.
Proof.
  intros Hms (Hb & Hj & Hset). unfold returns.
  destruct (decide (at2 (joint_mask x) b j = 1)) as [Hm|Hm].
  - destruct (Hset Hm) as [Hops Hname%lookup_lt_is_Some_2].
    destruct Hname as [name Hname].
    rewrite add_entry_masked by done.
    rewrite (record_sample_ok j _ name); eauto using joint_name_not_all.
    + apply Hms. left.
    + apply Hms. right. by eapply list_elem_of_lookup_2.
  - rewrite add_entry_unmasked by done. by eexists.
Qed.

Lemma add_entry_returned (x : batch point) (b j : nat) (ms : meters) :
  returns (add_entry torch_dist x b j) ms → entry_ok x b j.
Proof.
  unfold returns. intros [[] Hret].
  destruct (add_entry torch_dist x b j ms) as [ms' r] eqn:Hrun.
  simpl in Hret. subst r.
  pose proof Hrun as Hrun'. rewrite add_entry_eq in Hrun'. unfold entry_ok.
  destruct (_ && _) eqn:Hin in Hrun'; [|done].
  apply andb_true_iff in Hin as [Hb%Nat.ltb_lt Hj%Nat.ltb_lt].
  split_and!; [done..|]. intros Hm.
  rewrite Hm in Hrun'. simpl in Hrun'.
  destruct (_ && _) eqn:Ht in Hrun'; [|done].
  destruct (_ && _) eqn:Hp in Hrun'; [|done].
  destruct (_ <? _)%nat eqn:Hh in Hrun'; [|done].
  destruct (PrimFloat.eqb _ _) eqn:Hz in Hrun'; [done|].
  apply andb_true_iff in Ht as [?%Nat.ltb_lt ?%Nat.ltb_lt].
  apply andb_true_iff in Hp as [?%Nat.ltb_lt ?%Nat.ltb_lt].
  apply Nat.ltb_lt in Hh.
  apply record_sample_returns in Hrun' as (name & Hname%lookup_lt_Some & _).
  by split.
Qed.

Lemma add_returns (x : batch point) (ms : meters) :
  has_all_meters ms →
  (∀ b j, (b < size0 (pred x))%nat → (j < size1 (pred x))%nat → entry_ok x b j) →
  returns (add torch_dist x) ms ∧ has_all_meters (state_after (add torch_dist x) ms).
Proof.
  intros Hms Hok. unfold add.
  apply (for_each_returns has_all_meters); [|done].
  intros b ms1 Hb%elem_of_range Hms1.
  apply (for_each_returns has_all_meters); [|done].
  intros j ms2 Hj%elem_of_range Hms2. split.
  - apply add_entry_returns; auto.
  - unfold state_after.
    destruct (add_entry_shape torch_dist x b j ms2) as [[_ ->]|[[e ->]|[_ ->]]];
      [done..|].
    apply (record_sample_keeps has_all_meters j _ ms2); [|done].
    intros name s. apply meter_add_has_all.
Qed.

Lemma add_returned (x : batch point) (ms : meters) :
  returns (add torch_dist x) ms →
  ∀ b j, (b < size0 (pred x))%nat → (j < size1 (pred x))%nat → entry_ok x b j.
Proof.
  unfold add. intros Hret b j Hb%elem_of_range Hj%elem_of_range.
  destruct (for_each_returns_each _ _ _ Hret b Hb) as [ms1 Hinner].
  destruct (for_each_returns_each _ _ _ Hinner j Hj) as [ms2 Hentry].
  by eapply add_entry_returned.
Qed.


(** ** The meters after [add], as a tally of the batch *)

Lemma tally_app (l1 l2 : list (string * Z)) (ms : meters) :
  tally (l1 ++ l2) ms = tally l2 (tally l1 ms).
Proof. apply foldl_app. Qed.

Lemma for_each_tally {A} (g : A → list (string * Z)) (xs : list A)
    (body : A → Exec meters unit) (ms : meters) :
  (∀ x s, x ∈ xs → returns (body x) s → state_after (body x) s = tally (g x) s) →
  returns (for_each xs body) ms →
  state_after (for_each xs body) ms = tally (xs ≫= g) ms.
Proof.
  revert ms. induction xs as [|y xs IH]; intros ms Hbody Hret; [done|].
  unfold returns, state_after in *. rewrite for_each_cons in *.
  specialize (Hbody y ms ltac:(left)) as Hy.
  destruct (body y ms) as [ms1 [e|[]]] eqn:Hrun; [by destruct Hret|].
  simpl in Hy. rewrite bind_cons, tally_app, <- Hy by by exists tt.
  apply IH; [|done]. intros x s Hx. apply Hbody. by right.
Qed.

Lemma add_entry_tally (x : batch point) (b j : nat) (ms : meters) :
  returns (add_entry torch_dist x b j) ms →
  state_after (add_entry torch_dist x b j) ms
  = tally (option_list (entry_sample torch_dist x b j)) ms.
Proof.
  intros Hret. pose proof (add_entry_returned _ _ _ _ Hret) as (Hb & Hj & Hset).
  unfold state_after, entry_sample.
  destruct (decide (at2 (joint_mask x) b j = 1)) as [Hm|Hm].
  - destruct (Hset Hm) as [Hops _].
    unfold returns in Hret. rewrite add_entry_masked in * by done.
    destruct Hret as [[] Hret].
    destruct (record_sample j _ ms) as [ms' r] eqn:Hrun. simpl in Hret. subst r.
    apply record_sample_returns in Hrun as (name & Hname & _ & _ & ->).
    by rewrite Hm, Hname.
  - rewrite add_entry_unmasked by done.
    apply Z.eqb_neq in Hm. by rewrite Hm.
Qed.

(** The meters after an [add] that returned: the samples of the batch,
    recorded in the order of the loops. *)
Lemma add_tally (x : batch point) (ms : meters) :
  returns (add torch_dist x) ms →
  state_after (add torch_dist x) ms = tally (samples torch_dist x) ms.
Proof.
  unfold add, samples. apply for_each_tally.
  intros b ms1 _. apply for_each_tally.
  intros j ms2 _. apply add_entry_tally.
Qed.

Lemma alter_swap {A} (f g : A → A) (i j : string) (m : gmap string A) :
  (∀ a, f (g a) = g (f a)) →
  alter f i (alter g j m) = alter g j (alter f i m).
Proof.
  intros Hfg. apply map_eq. intros k. rewrite !lookup_alter.
  repeat case_decide; subst; try done;
    destruct (m !! k); simpl; by rewrite ?Hfg.
Qed.

Lemma meter_add_swap (v1 v2 : Z) (m : AverageValueMeter.t) :
  AverageValueMeter.add v1 (AverageValueMeter.add v2 m)
  = AverageValueMeter.add v2 (AverageValueMeter.add v1 m).
Proof. unfold AverageValueMeter.add. simpl. f_equal; lia. Qed.

Lemma recorded_swap (n1 n2 : string) (v1 v2 : Z) (ms : meters) :
  recorded n1 v1 (recorded n2 v2 ms) = recorded n2 v2 (recorded n1 v1 ms).
Proof.
  unfold recorded.
  rewrite (alter_swap _ _ "all" n2) by apply meter_add_swap.
  rewrite (alter_swap _ _ "all" "all") by apply meter_add_swap.
  rewrite (alter_swap _ _ n1 n2) by apply meter_add_swap.
  by rewrite (alter_swap _ _ n1 "all") by apply meter_add_swap.
Qed.

Lemma tally_recorded (name : string) (v : Z) (l : list (string * Z)) (ms : meters) :
  tally l (recorded name v ms) = recorded name v (tally l ms).
Proof.
  revert ms. induction l as [|[k u] l IH]; intros ms; [done|].
  simpl. by rewrite recorded_swap, IH.
Qed.

Lemma tally_swap (l1 l2 : list (string * Z)) (ms : meters) :
  tally l1 (tally l2 ms) = tally l2 (tally l1 ms).
Proof.
  revert ms. induction l1 as [|[k u] l1 IH]; intros ms; [done|].
  simpl. by rewrite <- tally_recorded, IH.
Qed.

(** X5: the order of two batches does not matter: when [add] returns on
    each of them, adding one and then the other returns as well and leaves
    the same meters as adding them the other way round. *)
Theorem batch_order_does_not_matter (x y : batch point) (ms : meters) :
  has_all_meters ms →
  returns (add torch_dist x) ms → returns (add torch_dist y) ms →
  (add torch_dist x;; add torch_dist y) ms
  = (tally (samples torch_dist y) (tally (samples torch_dist x) ms), inr tt) ∧
  (add torch_dist y;; add torch_dist x) ms
  = (add torch_dist x;; add torch_dist y) ms.
Proof.
  intros Hms Hx Hy.
  assert (∀ x y, returns (add torch_dist x) ms → returns (add torch_dist y) ms →
            (add torch_dist x;; add torch_dist y) ms
            = (tally (samples torch_dist y) (tally (samples torch_dist x) ms), inr tt))
    as Hboth.
  { clear x y Hx Hy. intros x y Hx Hy.
    pose proof (add_tally x ms Hx) as Hstate.
    destruct (add_returns x ms Hms (add_returned x ms Hx)) as [_ Hms1].
    destruct (add_returns y _ Hms1 (add_returned y ms Hy)) as [Hy1 _].
    pose proof (add_tally y _ Hy1) as Hstate1.
    unfold mbind, Exec_bind, exec_bind, returns, state_after in *.
    destruct Hx as [[] Hx].
    destruct (add torch_dist x ms) as [ms1 r]. simpl in *. subst r ms1.
    destruct Hy1 as [[] Hy1]. clear Hy.
    destruct (add torch_dist y _) as [ms2 r]. simpl in *. by subst r ms2. }
  split; [by apply Hboth|].
  rewrite !Hboth by done. by rewrite tally_swap.
Qed.

(** ** Distances that are no number, and distances that are zero *)

Lemma SFcompare_refl (s : spec_float) :
  s ≠ S754_nan → SFcompare s s = Some Eq.
Proof.
  destruct s as [sg|sg| |sg m e]; simpl; try done; intros _.
  - by destruct sg.
  - rewrite Z.compare_refl, Pos.compare_cont_refl. by destruct sg.
Qed.

Lemma thresholded_nan (d : float) : PrimFloat.is_nan d = true → thresholded d = 0.
Proof.
  unfold PrimFloat.is_nan, thresholded. intros Hnan%negb_true_iff.
  rewrite FloatAxioms.eqb_spec in Hnan. rewrite leb_spec.
  destruct (Prim2SF d) as [sg|sg| |sg m e] eqn:Hd; [..|done| ];
    unfold SFeqb in Hnan; by rewrite SFcompare_refl in Hnan.
Qed.

Lemma thresholded_zero_over (h : float) :
  PrimFloat.eqb h 0%float = false → PrimFloat.is_nan h = false →
  thresholded (PrimFloat.div 0%float h) = 1.
Proof.
  unfold PrimFloat.is_nan, thresholded. intros Hz Hnan%negb_false_iff.
  rewrite FloatAxioms.eqb_spec in Hz, Hnan. rewrite leb_spec, div_spec.
  change (Prim2SF 0%float) with (S754_zero false) in *.
  change (Prim2SF 0.5%float) with (S754_finite false 4503599627370496 (-53)).
  destruct (Prim2SF h) as [sg|sg| |sg m e]; try done; by destruct sg.
Qed.

(** X6: a masked entry whose normalised distance is not a number (a NaN
    coordinate or head length) is no error: it is recorded as a miss in
    ['all'] and in the joint's meter. *)
Theorem nan_distance_counts_as_miss (x : batch point) (b j : nat) (name : string)
    (ms : meters) :
  masked x b j → operands_ok x b j →
  JOINT_NAMES !! j = Some name →
  is_Some (ms !! "all"%string) → is_Some (ms !! name) →
  PrimFloat.is_nan (normalised_dist torch_dist x b j) = true →
  add_entry torch_dist x b j ms = (recorded name 0 ms, inr tt).
Proof.
  intros Hm Hops Hname Hall Hjoint Hnan.
  rewrite add_entry_masked, thresholded_nan by done.
  apply record_sample_ok; eauto using joint_name_not_all.
Qed.

(** X7: a masked entry whose prediction lies at distance zero of the
    target is recorded as a hit, for every head length that is a number
    other than zero. *)
Theorem exact_prediction_is_a_hit (x : batch point) (b j : nat) (name : string)
    (ms : meters) :
  masked x b j → operands_ok x b j →
  JOINT_NAMES !! j = Some name →
  is_Some (ms !! "all"%string) → is_Some (ms !! name) →
  torch_dist (at2 (target x) b j) (at2 (pred x) b j) = 0%float →
  PrimFloat.is_nan (at1 (head_lengths x) b) = false →
  add_entry torch_dist x b j ms = (recorded name 1 ms, inr tt).
Proof.
  intros Hm Hops Hname Hall Hjoint Hzero Hnum.
  rewrite add_entry_masked by done. unfold normalised_dist. rewrite Hzero.
  rewrite thresholded_zero_over; [|apply Hops|done].
  apply record_sample_ok; eauto using joint_name_not_all.
Qed.

End TallyFacts.

Section TallyRuns.
Import Examples PCKhEvaluator PCKhTally.

(** X3 on the wrist meter after a hit and a miss. *)
Lemma hit_rates_stay_in_unit_range_witness :
  0 ≤ 1 ≤ Z.of_nat 2 ∧ 1 = 1 ∧
  ∀ q, AverageValueMeter.mean (AverageValueMeter.mk 2 1 1) = Some q → (0 <= q <= 1)%Q.
Proof.
  apply (hit_rates_stay_in_unit_range line_dist [one_sample 4; one_sample 6]
           "rwrist" (AverageValueMeter.mk 2 1 1)).
  by vm_compute.
Defined.


(** X5 on a hit and a miss. *)
Lemma batch_order_does_not_matter_witness :
  (add line_dist (one_sample 4);; add line_dist (one_sample 6)) init
  = (tally (samples line_dist (one_sample 6))
       (tally (samples line_dist (one_sample 4)) init), inr tt) ∧
  (add line_dist (one_sample 6);; add line_dist (one_sample 4)) init
  = (add line_dist (one_sample 4);; add line_dist (one_sample 6)) init.
Proof.
  apply (batch_order_does_not_matter line_dist (one_sample 4) (one_sample 6) init).
  - intros name Hname. rewrite init_lookup. by rewrite decide_True
      by (apply elem_of_cons in Hname; tauto).
  - exists tt. by vm_compute.
  - exists tt. by vm_compute.
Defined.

(** X6 on a head length that is no number. *)
Lemma nan_distance_counts_as_miss_witness :
  add_entry line_dist nan_head 0 10 init = (recorded "rwrist" 0 init, inr tt).
Proof.
  apply (nan_distance_counts_as_miss line_dist nan_head 0 10 "rwrist" init).
  - unfold masked. simpl. lia.
  - unfold operands_ok. simpl. repeat split; lia.
  - reflexivity.
  - by eexists.
  - by eexists.
  - reflexivity.
Defined.

(** X7 on a prediction that is the target. *)
Lemma exact_prediction_is_a_hit_witness :
  add_entry line_dist (one_sample 0) 0 10 init = (recorded "rwrist" 1 init, inr tt).
Proof.
  apply (exact_prediction_is_a_hit line_dist (one_sample 0) 0 10 "rwrist" init).
  - unfold masked. simpl. lia.
  - unfold operands_ok. simpl. repeat split; lia.
  - reflexivity.
  - by eexists.
  - by eexists.
  - reflexivity.
  - reflexivity.
Defined.

End TallyRuns.

(** * More of the folder output *)

Section FolderMore.
Context `{Meter M}.

(** ** Renders that raise *)

Lemma record_files (v : json) (item : string * M) (w : world) :
  files (GrowingJSONCell.record v item w).1 = files w.
Proof.
  destruct item as [name meter].
  destruct v as [| | | | | |m]; try by rewrite record_not_object.
  rewrite record_eq. by destruct (m !! name) as [[]|].
Qed.

Lemma growing_loop_files (meters : list (string * M)) (v : json) (w : world) :
  files (for_fold meters v GrowingJSONCell.record w).1 = files w.
Proof.
  revert v w. induction meters as [|item meters IH]; intros v w; [done|].
  cbn [for_fold]. unfold mbind, Exec_bind, exec_bind.
  pose proof (record_files v item w) as Hrec.
  destruct (GrowingJSONCell.record v item w) as [w1 [e|v1]]; [done|].
  by rewrite IH.
Qed.

(** What a render leaves of the store, whatever its outcome: the store as
    it was, or the store with the file at its path replaced. *)
Lemma render_cell_files (self : FolderCell.t) (step_num : nat)
    (meters : list (string * M)) (w : world) :
  match FolderCell.build_path self step_num with
  | inl e => render_cell self step_num meters w = (w, inl e)
  | inr path =>
      ∃ w' r, render_cell self step_num meters w = (w', r) ∧
              (files w' = files w ∨ ∃ c, files w' = <[path := File c]> (files w))
  end.
Proof.
  unfold render_cell. destruct (FolderCell.class self).
  - rewrite snapshot_render_eq.
    destruct (FolderCell.build_path self step_num) as [e|path]; [done|].
    rewrite write_back_eq. simpl.
    destruct (files w !! path) as [[|c]|]; do 2 eexists; (split; [done|]);
      [by left|right; by eexists..].
  - unfold GrowingJSONCell.render. rewrite bind_lift.
    destruct (FolderCell.build_path self step_num) as [e|path]; [done|].
    unfold mbind at 1, Exec_bind, exec_bind. rewrite isfile_eq.
    set (w1 := World (files w) (trace w ++ [IsFile path])).
    assert (∀ v w2, files w2 = files w →
      ∃ w' r, (for_fold meters v GrowingJSONCell.record ≫= λ values,
                 open_w path;; json_dump path values) w2 = (w', r) ∧
              (files w' = files w ∨ ∃ c, files w' = <[path := File c]> (files w)))
      as Htail.
    { intros v w2 Hw2. unfold mbind at 1, Exec_bind, exec_bind.
      pose proof (growing_loop_files meters v w2) as Hloop.
      destruct (for_fold meters v GrowingJSONCell.record w2) as [w3 [e|after]];
        simpl in Hloop.
      - do 2 eexists. split; [done|]. left. congruence.
      - rewrite write_back_eq, Hloop, Hw2.
        destruct (files w !! path) as [[|c]|]; do 2 eexists; (split; [done|]);
          [by left|right; by eexists..]. }
    destruct (files w !! path) as [[|c]|] eqn:Hpath.
    + unfold mbind at 1, Exec_bind, exec_bind. unfold mret at 1, Exec_ret, exec_ret.
      by apply Htail.
    + unfold mbind at 1, Exec_bind, exec_bind. rewrite json_load_eq. simpl.
      rewrite Hpath. destruct c as [before|text]; [by apply Htail|].
      do 2 eexists. split; [done|]. by left.
    + unfold mbind at 1, Exec_bind, exec_bind. unfold mret at 1, Exec_ret, exec_ret.
      by apply Htail.
Qed.

(** X8: a render touches no file but its own: whether it returns or
    raises, every other path of the file system holds what it held before;
    and when the path cannot be built (a cell without a directory, a
    malformed template) it raises without having done anything. *)
Theorem render_touches_only_its_path (self : FolderCell.t) (step_num : nat)
    (meters : list (string * M)) (w : world) :
  (∀ e, FolderCell.build_path self step_num = inl e →
        render_cell self step_num meters w = (w, inl e)) ∧
  (∀ path p, FolderCell.build_path self step_num = inr path → p ≠ path →
             files (render_cell self step_num meters w).1 !! p = files w !! p) ∧
  (∀ name, FolderCell.dir_path self = None →
           str_format (FolderCell.filename_template self) step_num = inr name →
           render_cell self step_num meters w = (w, inl TypeError)).
Proof.
  pose proof (render_cell_files self step_num meters w) as Hfiles.
  split_and!.
  - intros e He. by rewrite He in Hfiles.
  - intros path p Hpath Hp. rewrite Hpath in Hfiles.
    destruct Hfiles as (w' & r & -> & [Hsame|[c Hnew]]); simpl.
    + by rewrite Hsame.
    + by rewrite Hnew, lookup_insert_ne.
  - intros name Hdir Hname. unfold FolderCell.build_path in Hfiles.
    by rewrite Hdir, Hname in Hfiles.
Qed.

(** X9: on a log that is no JSON document, a render of the growing view
    raises [ValueError] right after reading it: no meter is asked for its
    value and nothing is written, so the garbled log is left as it is. *)
Theorem garbled_log_is_left_alone (self : FolderCell.t) (step_num : nat)
    (meters : list (string * M)) (w : world) (path text : string) :
  FolderCell.build_path self step_num = inr path →
  files w !! path = Some (File (Raw text)) →
  GrowingJSONCell.render self step_num meters w
  = (World (files w) (trace w ++ [IsFile path; OpenRead path]), inl ValueError).
Proof.
  intros Hpath Hfile. unfold GrowingJSONCell.render. rewrite bind_lift, Hpath.
  unfold mbind at 1, Exec_bind, exec_bind. rewrite isfile_eq, Hfile.
  unfold mbind at 1, Exec_bind, exec_bind. rewrite json_load_eq. simpl.
  by rewrite Hfile, <- app_assoc.
Qed.

Lemma growing_loop_scalar (meters : list (string * M)) (m : gmap string json)
    (k : string) (v : json) (w : world) :
  k ∈ meters.*1 → m !! k = Some v → (∀ l, v ≠ JArr l) →
  (for_fold meters (JObj m) GrowingJSONCell.record w).2 = inl AttributeError.
Proof.
  revert m w. induction meters as [|[name meter] meters IH]; intros m w Hk Hm Hv;
    [by apply elem_of_nil in Hk|].
  cbn [for_fold]. unfold mbind, Exec_bind, exec_bind. rewrite record_eq.
  rewrite fmap_cons in Hk. simpl in Hk.
  destruct (decide (name = k)) as [->|Hne].
  - rewrite Hm. destruct v; try done. by destruct (Hv l).
  - apply elem_of_cons in Hk as [?|Hk]; [congruence|].
    destruct (m !! name) as [[| | | | |l|]|] eqn:Hname; try done;
      apply IH; try done; by rewrite lookup_insert_ne.
Qed.

(** X10: when the log holds, under a key the render is handed, something
    that is no array, a render of the growing view raises
    [AttributeError] and writes nothing: the log is left as it is. *)
Theorem scalar_entry_stops_the_render (self : FolderCell.t) (step_num : nat)
    (meters : list (string * M)) (w : world) (path k : string)
    (m : gmap string json) (v : json) :
  FolderCell.build_path self step_num = inr path →
  files w !! path = Some (File (Doc (JObj m))) →
  k ∈ meters.*1 → m !! k = Some v → (∀ l, v ≠ JArr l) →
  ∃ w', GrowingJSONCell.render self step_num meters w = (w', inl AttributeError) ∧
        files w' = files w.
Proof.
  intros Hpath Hfile Hk Hm Hv.
  unfold GrowingJSONCell.render. rewrite bind_lift, Hpath.
  unfold mbind at 1, Exec_bind, exec_bind. rewrite isfile_eq, Hfile.
  unfold mbind at 1, Exec_bind, exec_bind. rewrite json_load_eq. simpl.
  rewrite Hfile. unfold mbind at 1, Exec_bind, exec_bind.
  set (w2 := World _ _).
  pose proof (growing_loop_scalar meters m k v w2 Hk Hm Hv) as Hloop.
  pose proof (growing_loop_files meters (JObj m) w2) as Hfiles.
  destruct (for_fold meters (JObj m) GrowingJSONCell.record w2) as [w3 r].
  simpl in *. subst r. by exists w3.
Qed.

(** ** Renders that return *)

Lemma all_arrays_insert (m : gmap string json) (k : string) (l : list json) :
  all_arrays m → all_arrays (<[k := JArr l]> m).
Proof.
  intros Hm k' v. rewrite lookup_insert. case_decide; [|apply Hm].
  intros [= <-]. by eexists.
Qed.

(** On a mapping of arrays the loop over the meters goes through. *)
Lemma growing_loop_total (meters : list (string * M)) (m : gmap string json)
    (w : world) :
  all_arrays m →
  ∃ m', for_fold meters (JObj m) GrowingJSONCell.record w
        = (World (files w) (trace w ++ value_calls meters), inr (JObj m')) ∧
        all_arrays m'.
Proof.
  revert m w. induction meters as [|[name meter] meters IH]; intros m w Hm.
  - exists m. split; [|done]. simpl. unfold mret, Exec_ret, exec_ret.
    destruct w. by rewrite app_nil_r.
  - cbn [for_fold]. unfold mbind, Exec_bind, exec_bind. rewrite record_eq.
    destruct (m !! name) as [v|] eqn:Hname.
    + destruct (Hm name v Hname) as [l ->].
      destruct (IH (<[name := JArr (l ++ [value meter])]> m)
                   (World (files w) (trace w ++ [MeterCall name OpValue])))
        as (m' & -> & Hm'); [by apply all_arrays_insert|].
      exists m'. split; [|done]. simpl. by rewrite <- app_assoc.
    + destruct (IH (<[name := JArr [value meter]]> m)
                   (World (files w) (trace w ++ [MeterCall name OpValue])))
        as (m' & -> & Hm'); [by apply all_arrays_insert|].
      exists m'. split; [|done]. simpl. by rewrite <- app_assoc.
Qed.





(** X13: a render on a path that is a directory raises
    [IsADirectoryError] when it opens the path for writing, and leaves the
    file system as it was; the growing view has by then called every
    meter it was handed. *)
Theorem directory_in_the_way (self : FolderCell.t) (step_num : nat)
    (meters : list (string * M)) (w : world) (path : string) :
  FolderCell.build_path self step_num = inr path →
  files w !! path = Some Dir →
  ∃ evs, render_cell self step_num meters w
         = (World (files w) (trace w ++ evs), inl IsADirectoryError) ∧
         meter_calls evs = value_calls meters.
Proof.
  intros Hpath Hdir. unfold render_cell. destruct (FolderCell.class self).
  - rewrite snapshot_render_eq, Hpath, write_back_eq. simpl. rewrite Hdir.
    exists (value_calls meters ++ [OpenWrite path]). split.
    + by rewrite <- app_assoc.
    + by rewrite meter_calls_app, meter_calls_value_calls, app_nil_r.
  - unfold GrowingJSONCell.render. rewrite bind_lift, Hpath.
    unfold mbind at 1, Exec_bind, exec_bind. rewrite isfile_eq, Hdir.
    unfold mbind at 1, Exec_bind, exec_bind. unfold mret at 1, Exec_ret, exec_ret.
    unfold mbind at 1, Exec_bind, exec_bind.
    destruct (growing_loop_total meters ∅
                (World (files w) (trace w ++ [IsFile path])))
      as (m' & -> & _); [by intros k v ?%lookup_empty_Some|].
    rewrite write_back_eq. simpl. rewrite Hdir.
    exists ([IsFile path] ++ value_calls meters ++ [OpenWrite path]). split.
    + by rewrite <- !app_assoc.
    + rewrite !meter_calls_app, meter_calls_value_calls. simpl.
      by rewrite app_nil_r.
Qed.



End FolderMore.

Section PrepareMore.
Variable super_prepare : FolderOutput.t → list string → option exn.

(** X16: [prepare] cannot be repeated: once it has returned, a second
    [prepare] of the same output raises, for whatever registry, and leaves
    the file system as the first one left it. *)
Theorem prepare_twice_raises (self self' : FolderOutput.t) (meters meters' : list string)
    (w w' : world) :
  FolderOutput.prepare super_prepare self meters w = (w', inr self') →
  FolderOutput.dir_path self' = FolderOutput.dir_path self ∧
  files w' !! FolderOutput.dir_path self = Some Dir ∧
  ∃ e w'', FolderOutput.prepare super_prepare self' meters' w' = (w'', inl e) ∧
           files w'' = files w' ∧
           (super_prepare self' meters' = None → e = FileExistsError).
Proof.
  unfold FolderOutput.prepare.
  destruct (super_prepare self meters) as [e|]; [done|].
  unfold mbind, Exec_bind, exec_bind. rewrite makedirs_eq.
  destruct (files w !! FolderOutput.dir_path self) as [nd|] eqn:Hdir; [done|].
  unfold mret, Exec_ret, exec_ret. intros [= <- <-]. simpl.
  split_and!; [done|by rewrite lookup_insert_eq|].
  destruct (super_prepare _ meters') as [e|].
  - exists e. eexists. by split_and!.
  - exists FileExistsError. rewrite makedirs_eq. simpl.
    rewrite lookup_insert_eq. eexists. by split_and!.
Qed.

End PrepareMore.

Section FolderMoreRuns.
Import Examples.

(** X9 on a log cut short. *)
Lemma garbled_log_is_left_alone_witness :
  GrowingJSONCell.render growing_cell 1 [loss 2] garbled_world
  = (World (files garbled_world) [IsFile log_path; OpenRead log_path], inl ValueError).
Proof.
  apply (garbled_log_is_left_alone growing_cell 1 [loss 2] garbled_world log_path
           "{loss: [7"); reflexivity.
Defined.

(** X10 on a log whose loss is a number. *)
Lemma scalar_entry_stops_the_render_witness :
  ∃ w', GrowingJSONCell.render growing_cell 1 [epoch 1; loss 2] scalar_world
        = (w', inl AttributeError) ∧
        files w' = files scalar_world.
Proof.
  apply (scalar_entry_stops_the_render growing_cell 1 [epoch 1; loss 2] scalar_world
           log_path "loss" (<["loss"%string := JInt 7]> ∅) (JInt 7)).
  - reflexivity.
  - by vm_compute.
  - set_solver.
  - by vm_compute.
  - done.
Defined.



(** X13 on a directory where the log should be. *)
Lemma directory_in_the_way_witness :
  ∃ evs, render_cell growing_cell 0 [loss 3] blocked_world
         = (World (files blocked_world) (trace blocked_world ++ evs),
            inl IsADirectoryError) ∧
         meter_calls evs = value_calls [loss 3].
Proof.
  apply (directory_in_the_way growing_cell 0 [loss 3] blocked_world log_path).
  - reflexivity.
  - by vm_compute.
Defined.


(** X16 on an output whose directory is free. *)
Lemma prepare_twice_raises_witness :
  FolderOutput.dir_path (FolderOutput.mk "out" [(["loss"; "epoch"]%string, growing_cell)])
  = FolderOutput.dir_path output ∧
  files (World (<["out"%string := Dir]> ∅) [MakeDirs "out"]) !! FolderOutput.dir_path output
  = Some Dir ∧
  ∃ e w'',
    FolderOutput.prepare accept_all
      (FolderOutput.mk "out" [(["loss"; "epoch"]%string, growing_cell)]) []
      (World (<["out"%string := Dir]> ∅) [MakeDirs "out"]) = (w'', inl e) ∧
    files w'' = files (World (<["out"%string := Dir]> ∅) [MakeDirs "out"]) ∧
    (accept_all (FolderOutput.mk "out" [(["loss"; "epoch"]%string, growing_cell)]) []
     = None → e = FileExistsError).
Proof.
  apply (prepare_twice_raises accept_all output _ [] [] empty_world).
  by vm_compute.
Defined.

End FolderMoreRuns.

(** * The results frame *)

Section FrameFacts.
Import PoseResultsFrame.

Lemma py_index_in_range {S A} (l : list A) (i : Z) (a : A) (s : S) :
  0 ≤ i → l !! Z.to_nat i = Some a → @py_index S A l i s = (s, inr a).
Proof.
  intros Hi Ha. unfold py_index.
  apply Z.ltb_ge in Hi. by rewrite !Hi, Ha.
Qed.

(** A key other than [Escape] on a frame whose box reads [cur], over a
    subset that is not empty. *)
Lemma on_key_eq (keysym : string) (self : t) (cur : Z) :
  var_cur_sample self = Some cur → subset_indices self ≠ [] →
  keysym ≠ "Escape"%string →
  let n := Z.of_nat (length (subset_indices self)) in
  let moved :=
    if bool_decide (keysym = "End"%string) then n - 1
    else if bool_decide (keysym = "Home"%string) then 0
    else if bool_decide (keysym = "Left"%string) then
      (if bool_decide (keysym = "Right"%string) then cur + 1 else cur) - 1
    else if bool_decide (keysym = "Right"%string) then cur + 1 else cur in
  ∃ index, subset_indices self !! Z.to_nat (moved `mod` n) = Some index ∧
           on_key keysym self
           = (mk (Some (moved `mod` n)) (subset_indices self) (destroyed self)
                 (shown self ++ [index]), inr tt).
Proof.
  intros Hcur Hne Hkey n moved.
  assert (0 < n) as Hn by (subst n; destruct (subset_indices self); [done|simpl; lia]).
  assert (0 ≤ moved `mod` n < n) as Hrange by (apply Z.mod_pos_bound; lia).
  destruct (lookup_lt_is_Some_2 (subset_indices self) (Z.to_nat (moved `mod` n)))
    as [index Hindex]; [lia|].
  exists index. split; [done|].
  unfold on_key, cur_sample, py_mod, set_cur_sample, update_image, cur_sample.
  exec_unfold. rewrite Hcur, bool_decide_eq_false_2 by done. fold n. simpl.
  assert ((n =? 0) = false) as -> by (apply Z.eqb_neq; lia). simpl.
  rewrite (py_index_in_range _ _ index) by (subst moved n; tauto || done).
  repeat case_bool_decide; subst; done.
Qed.

(** X17: a key of the image panel leaves the current sample within the
    subset: for every key but [Escape], whatever integer the sample box
    reads, the handler returns, stores a sample from 0 up to the last one
    and shows the dataset index of that sample; the lookup in the subset
    never runs out of range. *)
Theorem on_key_stays_in_range (keysym : string) (self : t) (cur : Z) :
  var_cur_sample self = Some cur → subset_indices self ≠ [] →
  keysym ≠ "Escape"%string →
  ∃ value index,
    0 ≤ value < Z.of_nat (length (subset_indices self)) ∧
    subset_indices self !! Z.to_nat value = Some index ∧
    on_key keysym self
    = (mk (Some value) (subset_indices self) (destroyed self) (shown self ++ [index]),
       inr tt).
Proof.
  intros Hcur Hne Hkey.
  destruct (on_key_eq keysym self cur Hcur Hne Hkey) as (index & Hindex & Hrun).
  do 2 eexists. split; [|by split].
  apply Z.mod_pos_bound. destruct (subset_indices self); [done|simpl; lia].
Qed.

Lemma succ_pred_mod (c n : Z) : 0 ≤ c < n → ((c + 1) `mod` n - 1) `mod` n = c.
Proof.
  intros Hc. destruct (decide (c + 1 = n)) as [Heq|Hne].
  - rewrite Heq, Z.mod_same by lia.
    replace (0 - 1) with (c + (-1) * n) by lia.
    rewrite Z.mod_add by lia. apply Z.mod_small. lia.
  - rewrite (Z.mod_small (c + 1)) by lia.
    replace (c + 1 - 1) with c by lia. apply Z.mod_small. lia.
Qed.

Lemma pred_succ_mod (c n : Z) : 0 ≤ c < n → ((c - 1) `mod` n + 1) `mod` n = c.
Proof.
  intros Hc. destruct (decide (c = 0)) as [->|Hne].
  - replace (0 - 1) with (n - 1 + (-1) * n) by lia.
    rewrite Z.mod_add by lia. rewrite (Z.mod_small (n - 1)) by lia.
    replace (n - 1 + 1) with n by lia. apply Z.mod_same. lia.
  - rewrite (Z.mod_small (c - 1)) by lia.
    replace (c - 1 + 1) with c by lia. apply Z.mod_small. lia.
Qed.

(** X18: [Right] and [Left] undo each other, wrapping round at both ends
    of the subset: from a sample within the subset, [Right] and then
    [Left], or [Left] and then [Right], return and leave the sample box
    where it was. *)
Theorem right_and_left_undo_each_other (self : t) (cur : Z) :
  var_cur_sample self = Some cur →
  0 ≤ cur < Z.of_nat (length (subset_indices self)) →
  (∃ self', (on_key "Right";; on_key "Left") self = (self', inr tt) ∧
            var_cur_sample self' = Some cur ∧
            subset_indices self' = subset_indices self) ∧
  (∃ self', (on_key "Left";; on_key "Right") self = (self', inr tt) ∧
            var_cur_sample self' = Some cur ∧
            subset_indices self' = subset_indices self).
Proof.
  intros Hcur Hrange.
  assert (subset_indices self ≠ []) as Hne
    by (intros Hnil; rewrite Hnil in Hrange; simpl in Hrange; lia).
  set (n := Z.of_nat (length (subset_indices self))) in *.
  assert (∀ k1 k2 (f1 f2 : Z → Z),
    k1 ≠ "Escape"%string → k2 ≠ "Escape"%string →
    (∀ self c, var_cur_sample self = Some c → subset_indices self ≠ [] →
       ∃ index, on_key k1 self
                = (mk (Some (f1 c `mod` Z.of_nat (length (subset_indices self))))
                      (subset_indices self) (destroyed self) (shown self ++ [index]),
                   inr tt)) →
    (∀ self c, var_cur_sample self = Some c → subset_indices self ≠ [] →
       ∃ index, on_key k2 self
                = (mk (Some (f2 c `mod` Z.of_nat (length (subset_indices self))))
                      (subset_indices self) (destroyed self) (shown self ++ [index]),
                   inr tt)) →
    f2 (f1 cur `mod` n) `mod` n = cur →
    ∃ self', (on_key k1;; on_key k2) self = (self', inr tt) ∧
             var_cur_sample self' = Some cur ∧
             subset_indices self' = subset_indices self) as Hboth.
  { intros k1 k2 f1 f2 Hk1 Hk2 H1 H2 Hback.
    destruct (H1 self cur Hcur Hne) as [i1 Hrun1].
    unfold mbind, Exec_bind, exec_bind. rewrite Hrun1.
    destruct (H2 (mk (Some (f1 cur `mod` n)) (subset_indices self) (destroyed self)
                     (shown self ++ [i1])) _ eq_refl Hne) as [i2 Hrun2].
    cbn [subset_indices destroyed shown] in Hrun2. fold n in Hrun2. fold n.
    rewrite Hrun2. cbn [var_cur_sample subset_indices]. rewrite Hback. by eexists. }
  assert (∀ self c, var_cur_sample self = Some c → subset_indices self ≠ [] →
    ∃ index, on_key "Right" self
             = (mk (Some ((c + 1) `mod` Z.of_nat (length (subset_indices self))))
                   (subset_indices self) (destroyed self) (shown self ++ [index]),
                inr tt)) as Hright.
  { intros s c Hc Hs.
    destruct (on_key_eq "Right" s c Hc Hs ltac:(done)) as (index & _ & Hrun).
    by exists index. }
  assert (∀ self c, var_cur_sample self = Some c → subset_indices self ≠ [] →
    ∃ index, on_key "Left" self
             = (mk (Some ((c - 1) `mod` Z.of_nat (length (subset_indices self))))
                   (subset_indices self) (destroyed self) (shown self ++ [index]),
                inr tt)) as Hleft.
  { intros s c Hc Hs.
    destruct (on_key_eq "Left" s c Hc Hs ltac:(done)) as (index & _ & Hrun).
    by exists index. }
  split.
  - apply (Hboth "Right" "Left" (λ c, c + 1) (λ c, c - 1))%string; try done.
    simpl. by apply succ_pred_mod.
  - apply (Hboth "Left" "Right" (λ c, c - 1) (λ c, c + 1))%string; try done.
    simpl. by apply pred_succ_mod.
Qed.

(** X19: what a frame that cannot step does: over an empty subset every
    key but [Escape] raises [ZeroDivisionError] and changes nothing;
    [Escape] closes the window without touching the sample; and while the
    sample box holds no integer, every key raises [ValueError], [Escape]
    included, so that the window stays open. *)
Theorem keys_on_a_frame_that_cannot_step (keysym : string) (self : t) :
  (∀ cur, var_cur_sample self = Some cur → subset_indices self = [] →
          keysym ≠ "Escape"%string →
          on_key keysym self = (self, inl ZeroDivisionError)) ∧
  (∀ cur, var_cur_sample self = Some cur →
          on_key "Escape" self
          = (mk (Some cur) (subset_indices self) true (shown self), inr tt)) ∧
  (var_cur_sample self = None → on_key keysym self = (self, inl ValueError)).
Proof.
  unfold on_key, cur_sample, destroy, py_mod. exec_unfold. split_and!.
  - intros cur Hcur Hnil Hkey.
    by rewrite Hcur, bool_decide_eq_false_2, Hnil by done.
  - intros cur Hcur. rewrite Hcur. simpl. by rewrite Hcur.
  - by intros ->.
Qed.

End FrameFacts.

Section FrameRuns.
Import Examples PoseResultsFrame.

(** X17 on the last of four samples, stepping to the right. *)
Lemma on_key_stays_in_range_witness :
  ∃ value index,
    0 ≤ value < Z.of_nat (length (subset_indices four_samples)) ∧
    subset_indices four_samples !! Z.to_nat value = Some index ∧
    on_key "Right" four_samples
    = (mk (Some value) (subset_indices four_samples) (destroyed four_samples)
          (shown four_samples ++ [index]), inr tt).
Proof. by apply (on_key_stays_in_range "Right" four_samples 3). Defined.

(** X18 at the last of four samples, where [Right] wraps round. *)
Lemma right_and_left_undo_each_other_witness :
  (∃ self', (on_key "Right";; on_key "Left") four_samples = (self', inr tt) ∧
            var_cur_sample self' = Some 3 ∧
            subset_indices self' = subset_indices four_samples) ∧
  (∃ self', (on_key "Left";; on_key "Right") four_samples = (self', inr tt) ∧
            var_cur_sample self' = Some 3 ∧
            subset_indices self' = subset_indices four_samples).
Proof.
  apply (right_and_left_undo_each_other four_samples 3); [done|simpl; lia].
Defined.

(** The sample box redraws with what was typed: a number past the subset
    raises [IndexError], where a key of the image panel would have
    wrapped it round. *)
Example typed_sample_is_not_wrapped :
  on_key_cur_sample "Return" (mk (Some 7) [11; 12; 15; 19] false [])
  = (mk (Some 7) [11; 12; 15; 19] false [], inl IndexError) ∧
  on_key "Down" (mk (Some 7) [11; 12; 15; 19] false [])
  = (mk (Some 3) [11; 12; 15; 19] false [19], inr tt).
Proof. by vm_compute. Qed.

End FrameRuns.

(** * Building the model *)

Section PoseModelFacts.
Import PoseModel.

Lemma known_kwargs_lookup (param_names : list string) (kwargs : gmap string pyval)
    (k : string) :
  k ∈ param_names → known_kwargs param_names kwargs !! k = kwargs !! k.
Proof.
  intros Hk. unfold known_kwargs. rewrite map_lookup_filter.
  destruct (kwargs !! k) as [v|]; [|done]. simpl.
  by rewrite option_guard_True.
Qed.

Lemma known_kwargs_keyword (param_names : list string) (kwargs : gmap string pyval)
    (k : string) (dflt : pyval) :
  k ∈ param_names →
  keyword (known_kwargs param_names kwargs) k dflt = keyword kwargs k dflt.
Proof. intros Hk. unfold keyword. by rewrite known_kwargs_lookup. Qed.

(** X20: [build_mpii_pose_model] gets as far as constructing a model for
    exactly ten base names; for every other name, among them names that
    begin like a known family such as [resnet] or [hg16], it raises with
    the message that names the base, whatever the keyword arguments. *)
Theorem build_knows_ten_bases (base : string) (kwargs : gmap string pyval) :
  (base ∈ supported_bases → ∃ c, build_mpii_pose_model base kwargs = inr c) ∧
  (base ∉ supported_bases →
   build_mpii_pose_model base kwargs = inl (unsupported base)).
Proof.
  split.
  - intros Hbase. unfold supported_bases in Hbase.
    repeat (apply elem_of_cons in Hbase as [->|Hbase]; [by eexists|]).
    by apply elem_of_nil in Hbase.
  - intros Hbase. unfold supported_bases in Hbase.
    repeat (apply not_elem_of_cons in Hbase as [? Hbase]).
    unfold build_mpii_pose_model, _build_resnet_pose_model, _build_hg_model.
    rewrite !decide_False by done.
    by destruct (String.prefix "resnet" base), (String.prefix "hg" base).
Qed.

(** X21: keyword arguments a builder has no parameter for are dropped
    without a word: two calls whose keyword arguments agree on the
    parameters of the family of the base build the same model (for a
    ResNet [dilate], [truncate] and [output_strat]; for an hourglass
    [stacks] and [blocks]); and the bases [hg1], [hg2], [hg4] and [hg8] fix
    the number of stacks, overriding [stacks]. *)
Theorem unknown_keywords_are_dropped (base : string) (kwargs kwargs' : gmap string pyval) :
  (String.prefix "resnet" base = true →
   (∀ k, k ∈ resnet_params → kwargs !! k = kwargs' !! k) →
   build_mpii_pose_model base kwargs = build_mpii_pose_model base kwargs') ∧
  (String.prefix "resnet" base = false →
   (∀ k, k ∈ hg_params → kwargs !! k = kwargs' !! k) →
   build_mpii_pose_model base kwargs = build_mpii_pose_model base kwargs') ∧
  (∀ n, (base, n) ∈ [("hg1", 1); ("hg2", 2); ("hg4", 4); ("hg8", 8)]%string →
        build_mpii_pose_model base kwargs
        = inr (HourglassHumanPoseModel (PyInt n) (keyword kwargs "blocks" (PyInt 1)) 16)).
Proof.
  split_and!.
  - intros Hres Hagree. unfold build_mpii_pose_model. rewrite Hres.
    unfold _build_resnet_pose_model.
    rewrite !known_kwargs_keyword by (unfold resnet_params; set_solver).
    unfold keyword. by rewrite !Hagree by (unfold resnet_params; set_solver).
  - intros Hres Hagree. unfold build_mpii_pose_model. rewrite Hres.
    destruct (String.prefix "hg" base); [|done].
    unfold _build_hg_model.
    rewrite !known_kwargs_keyword by (unfold hg_params; set_solver).
    unfold keyword. by rewrite !Hagree by (unfold hg_params; set_solver).
  - intros n Hn.
    repeat (apply elem_of_cons in Hn as [[= -> ->]|Hn];
            [unfold build_mpii_pose_model, _build_hg_model; simpl;
             by rewrite known_kwargs_keyword by (unfold hg_params; set_solver)|]).
    by apply elem_of_nil in Hn.
Qed.

(** ** Dilation *)

Lemma dilate_module_stride (d : Z) (module : Conv2d) :
  stride (dilate_module d d module) ≠ (2, 2).
Proof.
  unfold dilate_module. case_decide; [done|].
  case_decide; [|done]. by destruct (kernel_size module).
Qed.

Lemma dilate_module_dilated (d : Z) (module : Conv2d) :
  stride module ≠ (2, 2) → kernel_size module = (3, 3) →
  dilate_module d d module = mkConv2d (stride module) (3, 3) (d, d) (d, d).
Proof.
  intros Hstride Hkernel. unfold dilate_module.
  rewrite decide_False, decide_True, Hkernel by done.
  f_equal. f_equal; symmetry; apply Z.div_unique with (r := 1); lia.
Qed.

Lemma dilate_module_unstrided (d : Z) (module : Conv2d) :
  stride module = (2, 2) →
  dilate_module d d module
  = mkConv2d (1, 1) (kernel_size module) (dilation module) (padding module).
Proof. intros Hstride. unfold dilate_module. by rewrite decide_True. Qed.

Lemma slice_start_in_range (n : nat) (dilate : Z) :
  0 ≤ dilate ≤ Z.of_nat n →
  slice_start (Z.of_nat n - dilate) n = (n - Z.to_nat dilate)%nat.
Proof.
  intros Hd. unfold slice_start.
  assert ((Z.of_nat n - dilate <? 0) = false) as -> by (apply Z.ltb_ge; lia).
  lia.
Qed.

(** X22: with [dilate] from 0 to the number of layer groups, the
    constructor leaves the first groups as they are and changes the last
    [dilate] ones, the [i]-th of them with dilation [2 ** (i + 1)]: there
    no convolution has stride 2 afterwards (a stride of 2 becomes 1, with
    dilation and padding as before), and a 3x3 convolution of another
    stride gets that dilation and a padding equal to it. *)
Theorem dilated_groups_do_not_downsample (layers : list (list Conv2d)) (dilate : Z) :
  0 ≤ dilate ≤ Z.of_nat (length layers) →
  let kept := (length layers - Z.to_nat dilate)%nat in
  length (dilate_layers layers dilate) = length layers ∧
  (∀ j, (j < kept)%nat → dilate_layers layers dilate !! j = layers !! j) ∧
  (∀ i group, layers !! (kept + i)%nat = Some group →
     dilate_layers layers dilate !! (kept + i)%nat
     = Some (dilate_module (2 ^ (Z.of_nat i + 1)) (2 ^ (Z.of_nat i + 1)) <$> group)) ∧
  (∀ i group module, dilate_layers layers dilate !! (kept + i)%nat = Some group →
     module ∈ group → stride module ≠ (2, 2)) ∧
  (∀ d module,
     (stride module = (2, 2) →
      dilate_module d d module
      = mkConv2d (1, 1) (kernel_size module) (dilation module) (padding module)) ∧
     (stride module ≠ (2, 2) → kernel_size module = (3, 3) →
      dilate_module d d module = mkConv2d (stride module) (3, 3) (d, d) (d, d))).
Proof.
  intros Hd kept. unfold dilate_layers. rewrite slice_start_in_range by done.
  fold kept.
  assert (kept ≤ length layers)%nat as Hkept by (subst kept; lia).
  assert (∀ i group, layers !! (kept + i)%nat = Some group →
     (take kept layers ++
      imap (λ i layer, dilate_module (2 ^ (Z.of_nat i + 1)) (2 ^ (Z.of_nat i + 1))
                         <$> layer) (drop kept layers)) !! (kept + i)%nat
     = Some (dilate_module (2 ^ (Z.of_nat i + 1)) (2 ^ (Z.of_nat i + 1)) <$> group))
    as Hdilated.
  { intros i group Hgroup.
    rewrite lookup_app_r by (rewrite length_take; lia).
    rewrite length_take, Nat.min_l by done.
    replace (kept + i - kept)%nat with i by lia.
    by rewrite list_lookup_imap, lookup_drop, Hgroup. }
  split_and!.
  - rewrite length_app, length_imap, length_take, length_drop. lia.
  - intros j Hj. rewrite lookup_app_l by (rewrite length_take; lia).
    by rewrite lookup_take_lt.
  - done.
  - intros i group module Hgroup Hmodule.
    destruct (layers !! (kept + i)%nat) as [orig|] eqn:Horig.
    + rewrite (Hdilated i orig Horig) in Hgroup. injection Hgroup as <-.
      apply list_elem_of_fmap in Hmodule as (m0 & -> & _).
      apply dilate_module_stride.
    + apply lookup_ge_None in Horig. apply lookup_lt_Some in Hgroup.
      rewrite length_app, length_imap, length_take, length_drop in Hgroup. lia.
  - intros d module. split.
    + apply dilate_module_unstrided.
    + apply dilate_module_dilated.
Qed.

(** X23: the dilation loop reads a [dilate] outside that range as Python
    reads a slice: with [dilate] of 0 or less nothing is dilated, and with
    [dilate] above the number of groups the slice wraps round, so that
    [dilate = 4] on three groups dilates the last group only, as
    [dilate = 1] does, and [dilate] of 6 or more dilates all three. *)
Theorem dilate_out_of_range_wraps (layers : list (list Conv2d)) (dilate : Z) :
  (dilate ≤ 0 → dilate_layers layers dilate = layers) ∧
  (Z.of_nat (length layers) < dilate →
   dilate_layers layers dilate
   = dilate_layers layers (Z.min (Z.of_nat (length layers))
                                 (dilate - Z.of_nat (length layers)))).
Proof.
  unfold dilate_layers, slice_start. split.
  - intros Hd.
    assert ((Z.of_nat (length layers) - dilate <? 0) = false) as ->
      by (apply Z.ltb_ge; lia).
    rewrite Nat.min_r by lia.
    by rewrite firstn_all, drop_all, app_nil_r.
  - intros Hd.
    assert ((Z.of_nat (length layers) - dilate <? 0) = true) as ->
      by (apply Z.ltb_lt; lia).
    assert ((Z.of_nat (length layers)
             - Z.min (Z.of_nat (length layers)) (dilate - Z.of_nat (length layers))
             <? 0) = false) as -> by (apply Z.ltb_ge; lia).
    assert (Z.to_nat (Z.max 0 (Z.of_nat (length layers)
                               + (Z.of_nat (length layers) - dilate)))
            = Nat.min (Z.to_nat (Z.of_nat (length layers)
                        - Z.min (Z.of_nat (length layers))
                                (dilate - Z.of_nat (length layers))))
                      (length layers)) as -> by lia.
    done.
Qed.

(** X26: the two ways the constructor counts from the end agree: with
    [truncate] from 1 to the number of layer groups, the groups kept and
    the group [feats] is read from are next to each other, so that the
    head takes the input channels of the first group that was cut off,
    with [truncate - 1] groups after it.  With [truncate] of 0 or less all
    groups are kept and [feats] is that of the classifier; with [truncate]
    above the number of groups the constructor raises [IndexError]. *)
Theorem head_follows_the_kept_groups {St L} (in_channels : L → Z) (fc_in_features : Z)
    (layers : list L) (truncate : Z) (s : St) :
  (0 < truncate ≤ Z.of_nat (length layers) →
   ∃ fcn layer rest,
     layers = fcn ++ layer :: rest ∧
     Z.of_nat (length rest) = truncate - 1 ∧
     truncate_layers in_channels fc_in_features layers truncate s
     = (s, inr (fcn, in_channels layer))) ∧
  (truncate ≤ 0 →
   truncate_layers in_channels fc_in_features layers truncate s
   = (s, inr (layers, fc_in_features))) ∧
  (Z.of_nat (length layers) < truncate →
   truncate_layers in_channels fc_in_features layers truncate s
   = (s, inl IndexError)).
Proof.
  split_and!.
  - intros Ht. unfold truncate_layers.
    rewrite slice_start_in_range by lia.
    assert ((0 <? truncate) = true) as -> by (apply Z.ltb_lt; lia).
    set (k := (length layers - Z.to_nat truncate)%nat).
    destruct (lookup_lt_is_Some_2 layers k) as [layer Hlayer]; [subst k; lia|].
    exists (take k layers), layer, (drop (S k) layers). split_and!.
    + by rewrite take_drop_middle.
    + rewrite length_drop. subst k. lia.
    + unfold mbind, Exec_bind, exec_bind, py_index.
      assert ((- truncate <? 0) = true) as -> by (apply Z.ltb_lt; lia).
      assert ((Z.of_nat (length layers) + - truncate <? 0) = false) as ->
        by (apply Z.ltb_ge; lia).
      replace (Z.to_nat (Z.of_nat (length layers) + - truncate)) with k
        by (subst k; lia).
      by rewrite Hlayer.
  - intros Ht. unfold truncate_layers, slice_start.
    assert ((0 <? truncate) = false) as -> by (apply Z.ltb_ge; lia).
    assert ((Z.of_nat (length layers) - truncate <? 0) = false) as ->
      by (apply Z.ltb_ge; lia).
    rewrite Nat.min_r by lia. by rewrite firstn_all.
  - intros Ht. unfold truncate_layers.
    assert ((0 <? truncate) = true) as -> by (apply Z.ltb_lt; lia).
    unfold mbind, Exec_bind, exec_bind, py_index.
    assert ((- truncate <? 0) = true) as -> by (apply Z.ltb_lt; lia).
    by assert ((Z.of_nat (length layers) + - truncate <? 0) = true) as ->
      by (apply Z.ltb_lt; lia).
Qed.

End PoseModelFacts.

(** * The defaults of the training script *)

Section TrainArgsFacts.
Import TrainArgs.

Lemma or_number_truthy (x : option pyval) (dflt : pyval) :
  truthy dflt = true → truthy (or_number x dflt) = true.
Proof.
  intros Hd. unfold or_number. destruct x as [v|]; [|done].
  by destruct (truthy v) eqn:Hv.
Qed.

Lemma or_number_again (x : option pyval) (dflt : pyval) :
  truthy dflt = true → or_number (Some (or_number x dflt)) dflt = or_number x dflt.
Proof.
  intros Hd. unfold or_number at 1. by rewrite or_number_truthy.
Qed.

Lemma or_list_again (x : option (list Z)) (dflt : list Z) :
  dflt ≠ [] → or_list (Some (or_list x dflt)) dflt = or_list x dflt.
Proof.
  intros Hd. unfold or_list. destruct x as [[|z l]|]; by destruct dflt.
Qed.

(** X24: for the optimisers [sgd] and [rmsprop], [parse_args] returns
    with a learning rate and a decay factor that are numbers other than
    zero, a list of milestones that is not empty, and a seed; an option
    given with a value other than zero is kept, and a learning rate or
    decay factor given as zero is taken for missing and replaced by the
    default, whereas a seed given as zero is kept. *)
Theorem defaults_fill_every_gap (drawn : Z) (args : t) :
  optim args = "sgd"%string ∨ optim args = "rmsprop"%string →
  let args' := set_defaults drawn args in
  (∃ l g ms, lr args' = Some l ∧ truthy l = true ∧
             schedule_gamma args' = Some g ∧ truthy g = true ∧
             schedule_milestones args' = Some ms ∧ ms ≠ [] ∧
             is_Some (seed args')) ∧
  (∀ v, lr args = Some v → truthy v = true → lr args' = Some v) ∧
  (∀ v, schedule_gamma args = Some v → truthy v = true →
        schedule_gamma args' = Some v) ∧
  (∀ v, lr args = Some v → truthy v = false → lr args' = lr (set_defaults drawn
          (mk (optim args) None (schedule_gamma args) (schedule_milestones args)
              (seed args)))) ∧
  (∀ v, schedule_gamma args = Some v → truthy v = false →
        schedule_gamma args' = schedule_gamma (set_defaults drawn
          (mk (optim args) (lr args) None (schedule_milestones args) (seed args)))) ∧
  (∀ s, seed args = Some s → seed args' = Some s) ∧
  (seed args = None → seed args' = Some drawn).
Proof.
  intros Hoptim args'. subst args'. unfold set_defaults.
  destruct Hoptim as [Hoptim|Hoptim]; rewrite Hoptim; simpl.
  - split_and!.
    + do 3 eexists. split_and!; try done.
      * by apply or_number_truthy.
      * by apply or_number_truthy.
      * unfold or_list. by destruct (schedule_milestones args) as [[|? ?]|].
      * by destruct (seed args).
    + intros v -> Hv. simpl. by rewrite Hv.
    + intros v -> Hv. simpl. by rewrite Hv.
    + intros v -> Hv. simpl. by rewrite Hv.
    + intros v -> Hv. simpl. by rewrite Hv.
    + by intros s ->.
    + by intros ->.
  - split_and!.
    + do 3 eexists. split_and!; try done.
      * by apply or_number_truthy.
      * by apply or_number_truthy.
      * unfold or_list. by destruct (schedule_milestones args) as [[|? ?]|].
      * by destruct (seed args).
    + intros v -> Hv. simpl. by rewrite Hv.
    + intros v -> Hv. simpl. by rewrite Hv.
    + intros v -> Hv. simpl. by rewrite Hv.
    + intros v -> Hv. simpl. by rewrite Hv.
    + by intros s ->.
    + by intros ->.
Qed.

(** X25: the defaults are settled in one go: running the lines that set
    them a second time over their own result, with whatever random draw,
    changes nothing; and for the optimiser [1cycle] a decay factor and
    milestones given on the command line are discarded. *)
Theorem defaults_are_settled_at_once (drawn drawn' : Z) (args : t) :
  set_defaults drawn' (set_defaults drawn args) = set_defaults drawn args ∧
  (optim args = "1cycle"%string →
   schedule_gamma (set_defaults drawn args) = None ∧
   schedule_milestones (set_defaults drawn args) = None).
Proof.
  split.
  - assert (∀ o : option Z,
      match match o with None => Some drawn | Some s => Some s end with
      | None => Some drawn'
      | Some s => Some s
      end = match o with None => Some drawn | Some s => Some s end) as Hseed
      by by intros [s|].
    assert (optim (set_defaults drawn args) = optim args) as Hoptim
      by (unfold set_defaults; by repeat case_decide).
    unfold set_defaults at 1. cbv zeta. rewrite Hoptim.
    destruct (decide (optim args = "sgd"%string)) as [Hsgd|Hsgd].
    { unfold set_defaults. rewrite decide_True by done.
      cbn [optim lr schedule_gamma schedule_milestones seed].
      by rewrite Hseed, !or_number_again, or_list_again. }
    destruct (decide (optim args = "rmsprop"%string)) as [Hrms|Hrms].
    { unfold set_defaults. rewrite decide_False, decide_True by done.
      cbn [optim lr schedule_gamma schedule_milestones seed].
      by rewrite Hseed, !or_number_again, or_list_again. }
    destruct (decide (optim args = "1cycle"%string)) as [Hone|Hone].
    { unfold set_defaults. rewrite !decide_False, decide_True by done.
      cbn [optim lr schedule_gamma schedule_milestones seed].
      by rewrite Hseed, or_number_again. }
    unfold set_defaults. rewrite !decide_False by done.
    cbn [optim lr schedule_gamma schedule_milestones seed].
    by rewrite Hseed.
  - intros Hoptim. unfold set_defaults. rewrite Hoptim. by simpl.
Qed.

End TrainArgsFacts.

Section LateRuns.
Import Examples.

(** X22 on three groups with [dilate = 2]: the first group keeps its
    stride-2 convolution, the other two lose theirs and get dilations 2
    and 4. *)
Lemma dilated_groups_do_not_downsample_witness :
  PoseModel.dilate_layers three_groups 2
  = [ [PoseModel.mkConv2d (2, 2) (3, 3) (1, 1) (1, 1);
       PoseModel.mkConv2d (1, 1) (3, 3) (1, 1) (1, 1)];
      [PoseModel.mkConv2d (1, 1) (3, 3) (1, 1) (1, 1);
       PoseModel.mkConv2d (1, 1) (3, 3) (2, 2) (2, 2)];
      [PoseModel.mkConv2d (1, 1) (3, 3) (1, 1) (1, 1);
       PoseModel.mkConv2d (1, 1) (3, 3) (4, 4) (4, 4)] ] ∧
  ∀ i group module,
    PoseModel.dilate_layers three_groups 2 !! (1 + i)%nat = Some group →
    module ∈ group → PoseModel.stride module ≠ (2, 2).
Proof.
  split; [by vm_compute|].
  assert (0 ≤ 2 ≤ Z.of_nat (length three_groups)) as Hrange
    by (vm_compute; split; discriminate).
  exact (proj1 (proj2 (proj2 (proj2
    (dilated_groups_do_not_downsample three_groups 2 Hrange))))).
Defined.

(** X24 on [--optim sgd --lr 0 --seed 0]: the learning rate becomes 0.2,
    the seed stays 0. *)
Lemma defaults_fill_every_gap_witness :
  TrainArgs.set_defaults 17 sgd_zero_lr
  = TrainArgs.mk "sgd" (Some (PyFloat 0.2)) (Some (PyFloat 0.5))
                 (Some [20; 40; 60; 80; 120; 140; 160; 180]) (Some 0) ∧
  ∀ s, TrainArgs.seed sgd_zero_lr = Some s →
       TrainArgs.seed (TrainArgs.set_defaults 17 sgd_zero_lr) = Some s.
Proof.
  split; [by vm_compute|].
  exact (proj1 (proj2 (proj2 (proj2 (proj2 (proj2
    (defaults_fill_every_gap 17 sgd_zero_lr (or_introl eq_refl)))))))).
Defined.

End LateRuns.
